(** * NDVI pipeline of [Backend/main.py]: embedding and verified properties

    The numerical core of the backend is [compute_ndvi] (the per-pixel
    transform on two float32 band grids) and [calculate_statistics] (the
    four-band classification with its percentages).  Both are embedded
    here over the IEEE-754 specification of the standard library
    ([SpecFloat]): binary32 for the grids, binary64 for Python floats. *)

From Stdlib Require Import ZArith QArith Qpower Qabs Lia Lqa SpecFloat Bool.
From stdpp Require Import base option list gmap strings pretty.

Local Open Scope Z_scope.

(** ** Floating-point formats *)

(** An integer as an unrounded significand with exponent 0. *)
Definition SFraw (z : Z) : spec_float :=
  match z with
  | Z0 => S754_zero false
  | Zpos p => S754_finite false p 0
  | Zneg p => S754_finite true p 0
  end.

Definition SFis_nan (x : spec_float) : bool :=
  match x with S754_nan => true | _ => false end.

(** [np.isfinite]. *)
Definition SFis_finite (x : spec_float) : bool :=
  match x with S754_zero _ | S754_finite _ _ _ => true | _ => false end.

(** The rational denoted by a finite float. *)
Definition SF2Q (x : spec_float) : option Q :=
  match x with
  | S754_zero _ => Some 0%Q
  | S754_finite s m (Zneg p) => Some (Qmake (cond_Zopp s (Zpos m)) (2 ^ p)%positive)
  | S754_finite s m e => Some (Qmake (cond_Zopp s (Zpos m) * 2 ^ e) 1)
  | _ => None
  end.

(** [n / d] rounded to the nearest integer, ties to the even one
    ([d] positive, [n] non-negative). *)
Definition div_half_even (n d : Z) : Z :=
  let q := n / d in
  match 2 * (n mod d) ?= d with
  | Lt => q
  | Gt => q + 1
  | Eq => if Z.even q then q else q + 1
  end.

(** binary64: Python floats and [np.float64]. *)
Module F64.
Definition prec : Z := 53.
Definition emax : Z := 1024.
Definition valid (x : spec_float) : Prop := valid_binary prec emax x = true.
Definition mul := SFmul prec emax.
Definition div := SFdiv prec emax.

(** The correctly rounded quotient of two integers: a decimal literal
    [n / 10^k] as Python parses it. *)
Definition of_ratio (n d : Z) : spec_float := div (SFraw n) (SFraw d).
(** Conversion of an integer ([np.int64], [int]) to a double. *)
Definition of_int (z : Z) : spec_float := binary_normalize prec emax z 0 false.

(** Widening of a float32 to a double ([float(x)], exact). *)
Definition of_single (x : spec_float) : spec_float :=
  match x with
  | S754_finite s m e => binary_round prec emax s m e
  | _ => x
  end.

(** C [rint] in the default rounding mode. *)
Definition rint (x : spec_float) : spec_float :=
  match x with
  | S754_finite s m (Zneg p) =>
      match div_half_even (Zpos m) (2 ^ Zpos p) with
      | Zpos k => binary_round prec emax s k 0
      | _ => S754_zero s
      end
  | _ => x
  end.
End F64.

(** binary32: the dtype of the band grids and of the NDVI grid. *)
Module F32.
Definition prec : Z := 24.
Definition emax : Z := 128.
Definition valid (x : spec_float) : Prop := valid_binary prec emax x = true.
Definition add := SFadd prec emax.
Definition sub := SFsub prec emax.
Definition div := SFdiv prec emax.
Definition abs := SFabs.
(** [a > b], [a < b] and [a <= b]; all false on NaN. *)
Definition gtb (a b : spec_float) : bool := SFltb b a.
Definition ltb (a b : spec_float) : bool := SFltb a b.
Definition leb (a b : spec_float) : bool := SFleb a b.

(** Cast of a double to float32.  A Python float met by a float32
    array in a ufunc takes the dtype of the array. *)
Definition of_double (x : spec_float) : spec_float :=
  match x with
  | S754_finite s m e => binary_round prec emax s m e
  | _ => x
  end.

Definition zero : spec_float := S754_zero false.

(** A float32 that is neither NaN nor an infinity. *)
Definition finite (x : spec_float) : Prop :=
  SFis_finite x = true /\ valid_binary prec emax x = true.
End F32.

(** The Python literals of the source, as doubles and as the float32
    scalars the ufuncs compare against. *)
Definition lit_1e_6 : spec_float := F64.of_ratio 1 1000000.
Definition lit_0_2 : spec_float := F64.of_ratio 2 10.
Definition lit_0_4 : spec_float := F64.of_ratio 4 10.
Definition lit_0_6 : spec_float := F64.of_ratio 6 10.
Definition lit_1_0 : spec_float := F64.of_ratio 1 1.
Definition lit_neg_1_0 : spec_float := F64.of_ratio (-1) 1.

(** ** Arrays and exceptions *)

(** A NumPy array: its shape tuple and its elements in row-major order. *)
Record ndarray (A : Type) := NdArray { shape : list nat; data : list A }.
Arguments NdArray {A} _ _.
Arguments shape {A} _.
Arguments data {A} _.

Definition size_of_shape (s : list nat) : nat := foldr Nat.mul 1%nat s.

(** The array holds as many elements as its shape announces. *)
Definition well_formed {A} (a : ndarray A) : Prop :=
  length (data a) = size_of_shape (shape a).

Inductive exn := ValueError (msg : string).

Inductive result (A : Type) :=
  | Return (a : A)
  | Raise (e : exn).
Arguments Return {A} _.
Arguments Raise {A} _.

(** [repr] of a tuple of ints: [()], [(3,)], [(3, 4)]. *)
Fixpoint repr_items (s : list nat) : string :=
  match s with
  | [] => ""
  | [n] => pretty n
  | n :: rest => pretty n +:+ ", " +:+ repr_items rest
  end.

Definition repr_shape (s : list nat) : string :=
  match s with
  | [n] => "(" +:+ pretty n +:+ ",)"
  | _ => "(" +:+ repr_items s +:+ ")"
  end.

Definition mismatch_message (red_shape nir_shape : list nat) : string :=
  "Band dimension mismatch: RED " +:+ repr_shape red_shape
    +:+ " vs NIR " +:+ repr_shape nir_shape.

Definition no_valid_pixels_message : string :=
  "No valid NDVI pixels found after masking".

(** Element-wise ufuncs on arrays of one shape. *)
Definition arr_map {A B} (f : A -> B) (a : ndarray A) : ndarray B :=
  NdArray (shape a) (f <$> data a).

Definition arr_zip {A B C} (f : A -> B -> C) (a : ndarray A) (b : ndarray B) : ndarray C :=
  NdArray (shape a) (zip_with f (data a) (data b)).

(** [a[mask]]: the selected elements, as a flat array. *)
Fixpoint select {A} (l : list A) (mask : list bool) : list A :=
  match l, mask with
  | x :: l', true :: mask' => x :: select l' mask'
  | _ :: l', false :: mask' => select l' mask'
  | _, _ => []
  end.

Definition masked_select {A} (a : ndarray A) (mask : ndarray bool) : ndarray A :=
  let sel := select (data a) (data mask) in NdArray [length sel] sel.

(** [a[mask] = vals]: the values go, in order, to the selected places. *)
Fixpoint put {A} (l : list A) (mask : list bool) (vals : list A) : list A :=
  match l, mask with
  | x :: l', true :: mask' =>
      match vals with
      | v :: vals' => v :: put l' mask' vals'
      | [] => x :: put l' mask' []
      end
  | x :: l', false :: mask' => x :: put l' mask' vals
  | _, _ => l
  end.

Definition masked_assign {A} (a : ndarray A) (mask : ndarray bool) (vals : ndarray A) : ndarray A :=
  NdArray (shape a) (put (data a) (data mask) (data vals)).

(** ** [compute_ndvi] *)

Definition epsilon : spec_float := F32.of_double lit_1e_6.
Definition clip_min : spec_float := F32.of_double lit_neg_1_0.
Definition clip_max : spec_float := F32.of_double lit_1_0.

(** The scalar loop of [np.clip]: NaN is kept, anything else is brought
    between [lo] and [hi]. *)
Definition clip (lo hi x : spec_float) : spec_float :=
  if SFis_nan x then x
  else
    let y := if F32.gtb x lo then x else lo in
    if F32.ltb y hi then y else hi.

Definition np_clip (a : ndarray spec_float) (lo hi : spec_float) : ndarray spec_float :=
  arr_map (clip lo hi) a.

Definition zeros_like {A} (a : ndarray A) : ndarray spec_float :=
  arr_map (fun _ => F32.zero) a.

Definition compute_ndvi (red_band nir_band : ndarray spec_float)
  : result (ndarray spec_float) :=
  if decide (shape red_band ≠ shape nir_band) then
    Raise (ValueError (mismatch_message (shape red_band) (shape nir_band)))
  else
    let numerator := arr_zip F32.sub nir_band red_band in
    let denominator := arr_zip F32.add nir_band red_band in
    let ndvi := zeros_like numerator in
    let valid_mask :=
      arr_map (fun d => F32.gtb d epsilon) (arr_map F32.abs denominator) in
    let ndvi :=
      masked_assign ndvi valid_mask
        (arr_zip F32.div (masked_select numerator valid_mask)
                         (masked_select denominator valid_mask)) in
    let ndvi := np_clip ndvi clip_min clip_max in
    Return ndvi.

(** What [compute_ndvi] does at one pixel position. *)
Definition ndvi_pixel (red nir : spec_float) : spec_float :=
  let numerator := F32.sub nir red in
  let denominator := F32.add nir red in
  clip clip_min clip_max
    (if F32.gtb (F32.abs denominator) epsilon
     then F32.div numerator denominator
     else F32.zero).

(** The value is a number of the closed interval from -1 to 1. *)
Definition in_unit_interval (v : spec_float) : Prop :=
  exists q, SF2Q v = Some q /\ (-1 <= q <= 1)%Q.

Definition SFis_zero (x : spec_float) : bool :=
  match x with S754_zero _ => true | _ => false end.

(** The number of pixel positions at which a band holds NaN. *)
Definition nan_pixels (red nir : list spec_float) : Z :=
  Z.of_nat (length (filter (fun p => SFis_nan p.1 || SFis_nan p.2 = true) (zip red nir))).

(** ** [calculate_statistics] *)

Definition thr_0_2 : spec_float := F32.of_double lit_0_2.
Definition thr_0_4 : spec_float := F32.of_double lit_0_4.
Definition thr_0_6 : spec_float := F32.of_double lit_0_6.

(** [np.sum] of a boolean array: the number of [True] entries. *)
Definition np_sum (mask : list bool) : Z :=
  Z.of_nat (length (filter (fun b => b = true) mask)).

(** [round(x, ndigits)] on an [np.float64]: NumPy scales, applies
    [rint] and scales back. *)
Definition np_round (x : spec_float) (ndigits : nat) : spec_float :=
  let f := F64.of_int (10 ^ Z.of_nat ndigits) in
  F64.div (F64.rint (F64.mul x f)) f.

(** [round(x, ndigits)] on a Python float: the decimal nearest to the
    exact value of [x] (ties to even), read back as a double. *)
Definition py_round (x : spec_float) (ndigits : nat) : spec_float :=
  match x with
  | S754_finite s m (Zneg p) =>
      let k := div_half_even (Zpos m * 10 ^ Z.of_nat ndigits) (2 ^ Zpos p) in
      match F64.of_ratio k (10 ^ Z.of_nat ndigits) with
      | S754_zero _ => S754_zero s
      | S754_finite _ m' e' => S754_finite s m' e'
      | r => r
      end
  | _ => x
  end.

(** The reductions that NumPy supplies for the summary values, each
    already converted with [float(...)]. *)
Class Reductions := {
  np_mean : list spec_float -> spec_float;
  np_std : list spec_float -> spec_float;
  np_min : list spec_float -> spec_float;
  np_max : list spec_float -> spec_float
}.

(** The returned dictionary; its keys are fixed. *)
Record stats := Stats {
  healthy_vegetation_percent : spec_float;
  moderate_vegetation_percent : spec_float;
  stressed_vegetation_percent : spec_float;
  bare_land_percent : spec_float;
  mean_ndvi : spec_float;
  std_ndvi : spec_float;
  min_ndvi : spec_float;
  max_ndvi : spec_float;
  total_valid_pixels : Z
}.

(** The four class counts as the source computes them on the finite
    values. *)
Definition count_healthy (valid_ndvi : list spec_float) : Z :=
  np_sum ((fun v => F32.gtb v thr_0_6) <$> valid_ndvi).
Definition count_moderate (valid_ndvi : list spec_float) : Z :=
  np_sum (zip_with andb ((fun v => F32.gtb v thr_0_4) <$> valid_ndvi)
                        ((fun v => F32.leb v thr_0_6) <$> valid_ndvi)).
Definition count_stressed (valid_ndvi : list spec_float) : Z :=
  np_sum (zip_with andb ((fun v => F32.gtb v thr_0_2) <$> valid_ndvi)
                        ((fun v => F32.leb v thr_0_4) <$> valid_ndvi)).
Definition count_bare (valid_ndvi : list spec_float) : Z :=
  np_sum ((fun v => F32.leb v thr_0_2) <$> valid_ndvi).

(** [round((count / total_pixels) * 100, 2)]. *)
Definition percent (count total_pixels : Z) : spec_float :=
  np_round
    (F64.mul (F64.div (F64.of_int count) (F64.of_int total_pixels)) (F64.of_int 100))
    2.

Definition finite_values (ndvi : ndarray spec_float) : list spec_float :=
  select (data ndvi) (SFis_finite <$> data ndvi).

Definition calculate_statistics `{Reductions} (ndvi : ndarray spec_float)
  : result stats :=
  let valid_ndvi := finite_values ndvi in
  if decide (length valid_ndvi = 0%nat) then
    Raise (ValueError no_valid_pixels_message)
  else
    let total_pixels := Z.of_nat (length valid_ndvi) in
    let healthy := count_healthy valid_ndvi in
    let moderate := count_moderate valid_ndvi in
    let stressed := count_stressed valid_ndvi in
    let bare := count_bare valid_ndvi in
    Return {|
      healthy_vegetation_percent := percent healthy total_pixels;
      moderate_vegetation_percent := percent moderate total_pixels;
      stressed_vegetation_percent := percent stressed total_pixels;
      bare_land_percent := percent bare total_pixels;
      mean_ndvi := py_round (np_mean valid_ndvi) 3;
      std_ndvi := py_round (np_std valid_ndvi) 3;
      min_ndvi := py_round (np_min valid_ndvi) 3;
      max_ndvi := py_round (np_max valid_ndvi) 3;
      total_valid_pixels := total_pixels
    |}.

(** The band a value falls into, by the same four tests. *)
Inductive band := Healthy | Moderate | Stressed | BareLand.

Global Instance band_eq_dec : EqDecision band.
Proof. solve_decision. Defined.

Definition in_band (b : band) (v : spec_float) : bool :=
  match b with
  | Healthy => F32.gtb v thr_0_6
  | Moderate => F32.gtb v thr_0_4 && F32.leb v thr_0_6
  | Stressed => F32.gtb v thr_0_2 && F32.leb v thr_0_4
  | BareLand => F32.leb v thr_0_2
  end.

(** The number of values of a list that fall into a band. *)
Definition count_band (b : band) (l : list spec_float) : Z :=
  Z.of_nat (length (filter (fun v => in_band b v = true) l)).

(** The sum of the four reported percentages, as a rational. *)
Definition percent_sum (st : stats) : option Q :=
  h ← SF2Q (healthy_vegetation_percent st);
  m ← SF2Q (moderate_vegetation_percent st);
  s ← SF2Q (stressed_vegetation_percent st);
  b ← SF2Q (bare_land_percent st);
  Some (h + m + s + b)%Q.

(** The reductions as NumPy computes them on a contiguous float32
    array.  [np.add.reduce] starts from the identity [0.0] and adds the
    pairwise sum of the array: fewer than 8 elements are added in
    sequence starting from [-0.0]; up to 128 elements go through 8
    accumulators; a longer array is split in two near the middle, at a
    multiple of 8. *)
Module Reduce.
Definition mul := SFmul F32.prec F32.emax.
Definition sqrt := SFsqrt F32.prec F32.emax.

Definition sum_small (a : list spec_float) : spec_float :=
  foldl F32.add (S754_zero true) a.

(** [r[j] += a[i + j]] for the given number of blocks of 8. *)
Fixpoint accumulate (blocks : nat) (r a : list spec_float)
  : list spec_float * list spec_float :=
  match blocks with
  | O => (r, a)
  | S k => accumulate k (zip_with F32.add r (take 8 a)) (drop 8 a)
  end.

Definition sum_block (a : list spec_float) : spec_float :=
  let '(r, rest) := accumulate (length a / 8 - 1) (take 8 a) (drop 8 a) in
  match r with
  | [r0; r1; r2; r3; r4; r5; r6; r7] =>
      foldl F32.add
        (F32.add (F32.add (F32.add r0 r1) (F32.add r2 r3))
                 (F32.add (F32.add r4 r5) (F32.add r6 r7)))
        rest
  | _ => S754_nan
  end.

(** The recursion halves the array; [fuel] bounds its depth. *)
Fixpoint pairwise_sum (fuel : nat) (a : list spec_float) : spec_float :=
  let n := length a in
  if (n <? 8)%nat then sum_small a
  else if (n <=? 128)%nat then sum_block a
  else
    match fuel with
    | O => S754_nan
    | S fuel =>
        let n2 := (n / 2 - (n / 2) mod 8)%nat in
        F32.add (pairwise_sum fuel (take n2 a)) (pairwise_sum fuel (drop n2 a))
    end.

Definition sum (a : list spec_float) : spec_float :=
  F32.add F32.zero (pairwise_sum (length a) a).

(** [ret.dtype.type(ret / rcount)]: the float32 sum over the [intp]
    count is a double, cast back to float32. *)
Definition over_count (x : spec_float) (n : nat) : spec_float :=
  F32.of_double (F64.div (F64.of_single x) (F64.of_int (Z.of_nat n))).

Definition mean (a : list spec_float) : spec_float :=
  over_count (sum a) (length a).

(** [np.std]: the root of the mean of the squared deviations. *)
Definition std (a : list spec_float) : spec_float :=
  let arrmean := mean a in
  let x := (fun v => F32.sub v arrmean) <$> a in
  sqrt (over_count (sum ((fun d => mul d d) <$> x)) (length a)).

(** [np.minimum.reduce] and [np.maximum.reduce] start from the first
    element; of two equal elements the later one is kept, and a NaN is
    propagated.  (On the empty array NumPy raises; the source calls
    them on non-empty arrays only.) *)
Definition minimum (a : list spec_float) : spec_float :=
  match a with
  | [] => S754_nan
  | x :: a' => foldl (fun io1 in2 => if F32.ltb io1 in2 || SFis_nan io1 then io1 else in2) x a'
  end.
Definition maximum (a : list spec_float) : spec_float :=
  match a with
  | [] => S754_nan
  | x :: a' => foldl (fun io1 in2 => if F32.gtb io1 in2 || SFis_nan io1 then io1 else in2) x a'
  end.
End Reduce.

Definition numpy_reductions : Reductions := {|
  np_mean l := F64.of_single (Reduce.mean l);
  np_std l := F64.of_single (Reduce.std l);
  np_min l := F64.of_single (Reduce.minimum l);
  np_max l := F64.of_single (Reduce.maximum l)
|}.

(** ** Sample values and grids *)

(** The float32 pixels 0.1 and 0.5. *)
Definition px_0_1 : spec_float := F32.of_double (F64.of_ratio 1 10).
Definition px_0_5 : spec_float := F32.of_double (F64.of_ratio 5 10).
Definition px_0_25 : spec_float := F32.of_double (F64.of_ratio 25 100).

(** A 4 x 8 NDVI grid: one healthy, one moderate, one stressed pixel and
    29 bare ones. *)
Definition grid_4x8 : ndarray spec_float :=
  NdArray [4; 8]%nat (clip_max :: px_0_5 :: px_0_25 :: replicate 29 F32.zero).

(** The grid without pixels. *)
Definition grid_0x0 : ndarray spec_float := NdArray [0; 0]%nat [].

(** ** The functions on a store of array objects

    NumPy arrays are objects on the heap: the arguments of the two
    functions are references, every ufunc allocates its result, and
    [ndvi[valid_mask] = ...] writes into an existing object. *)

Inductive array_obj :=
  | FloatArr (a : ndarray spec_float)
  | BoolArr (a : ndarray bool).

Abbreviation loc := positive.
Abbreviation store := (gmap positive array_obj).

(** A new object at an address not yet in use. *)
Definition alloc (v : array_obj) (h : store) : loc * store :=
  let l := fresh (dom h) in (l, <[l := v]> h).

Definition get_float (h : store) (l : loc) : option (ndarray spec_float) :=
  match h !! l with Some (FloatArr a) => Some a | _ => None end.

(** [a[mask] = vals] on the object stored at [l]. *)
Definition assign_in_place (l : loc) (mask : ndarray bool) (vals : ndarray spec_float)
    (h : store) : store :=
  alter (fun o => match o with
                  | FloatArr a => FloatArr (masked_assign a mask vals)
                  | BoolArr a => BoolArr a
                  end) l h.

(** [compute_ndvi] on references; [None] when an argument is not a float
    array of the store. *)
Definition compute_ndvi_heap (red_band nir_band : loc) (h : store)
  : option (result loc * store) :=
  r ← get_float h red_band;
  n ← get_float h nir_band;
  if decide (shape r ≠ shape n) then
    Some (Raise (ValueError (mismatch_message (shape r) (shape n))), h)
  else
    let num := arr_zip F32.sub n r in
    let '(numerator, h) := alloc (FloatArr num) h in
    let den := arr_zip F32.add n r in
    let '(denominator, h) := alloc (FloatArr den) h in
    let '(ndvi, h) := alloc (FloatArr (zeros_like num)) h in
    let absd := arr_map F32.abs den in
    let '(_, h) := alloc (FloatArr absd) h in
    let mask := arr_map (fun d => F32.gtb d epsilon) absd in
    let '(valid_mask, h) := alloc (BoolArr mask) h in
    let sel_num := masked_select num mask in
    let '(_, h) := alloc (FloatArr sel_num) h in
    let sel_den := masked_select den mask in
    let '(_, h) := alloc (FloatArr sel_den) h in
    let quot := arr_zip F32.div sel_num sel_den in
    let '(_, h) := alloc (FloatArr quot) h in
    let h := assign_in_place ndvi mask quot h in
    cur ← get_float h ndvi;
    let '(clipped, h) := alloc (FloatArr (np_clip cur clip_min clip_max)) h in
    Some (Return clipped, h).

(** The temporaries of [calculate_statistics]: the finite mask, the
    selection and the comparison arrays. *)
Definition statistics_temporaries (ndvi : ndarray spec_float) : list array_obj :=
  let fin := arr_map SFis_finite ndvi in
  let valid_ndvi := masked_select ndvi fin in
  let gt t := arr_map (fun v => F32.gtb v t) valid_ndvi in
  let le t := arr_map (fun v => F32.leb v t) valid_ndvi in
  [BoolArr fin; FloatArr valid_ndvi;
   BoolArr (gt thr_0_6);
   BoolArr (gt thr_0_4); BoolArr (le thr_0_6); BoolArr (arr_zip andb (gt thr_0_4) (le thr_0_6));
   BoolArr (gt thr_0_2); BoolArr (le thr_0_4); BoolArr (arr_zip andb (gt thr_0_2) (le thr_0_4));
   BoolArr (le thr_0_2)].

Definition alloc_all (objs : list array_obj) (h : store) : store :=
  foldl (fun h o => (alloc o h).2) h objs.

(** [calculate_statistics] on a reference: the dictionary is returned by
    value. *)
Definition calculate_statistics_heap `{Reductions} (ndvi : loc) (h : store)
  : option (result stats * store) :=
  a ← get_float h ndvi;
  match calculate_statistics a with
  | Raise e => Some (Raise e, alloc_all (take 2 (statistics_temporaries a)) h)
  | Return st => Some (Return st, alloc_all (statistics_temporaries a) h)
  end.

(** What a returned reference points to. *)
Definition read_result (h : store) (res : result loc)
  : option (result (ndarray spec_float)) :=
  match res with
  | Return l => Return <$> get_float h l
  | Raise e => Some (Raise e)
  end.

(** ** Values and relative errors *)

(** The rational [m * 2^e]. *)
Definition F2Q (m e : Z) : Q := (inject_Z m * 2 ^ e)%Q.

(** The value of a float; 0 for what is not a finite number. *)
Definition SFval (x : spec_float) : Q :=
  match x with
  | S754_finite s m e => F2Q (cond_Zopp s (Zpos m)) e
  | _ => 0%Q
  end.

(** [x] is within the relative error [r] of [t]. *)
Definition approx (r x t : Q) : Prop :=
  ((1 - r) * t <= x /\ x <= (1 + r) * t)%Q.

(** The unit in the last place of a double, relative to its value. *)
Definition u64 : Q := 1 # 4503599627370496.

(** A positive normal double with magnitude (number of digits plus
    exponent) between [lo] and [hi]. *)
Definition normal64 (lo hi : Z) (x : spec_float) : Prop :=
  exists m e, x = S754_finite false m e
              /\ Zdigits2 (Zpos m) = 53 /\ lo <= 53 + e <= hi.

(** ** [read_band] and the JSON endpoint *)

(** What rasterio hands over for the first band of an upload: an array
    of the dtype of the dataset (an integer type, uint16 for
    Sentinel-2, or a float type), or an exception with its message. *)
Inductive raster :=
  | IntBand (a : ndarray Z)
  | Float32Band (a : ndarray spec_float)
  | Float64Band (a : ndarray spec_float).

Inductive decoded :=
  | Decoded (r : raster)
  | DecodeError (msg : string).

(** [band_data.astype(np.float32)]. *)
Definition astype_float32 (r : raster) : ndarray spec_float :=
  match r with
  | IntBand a => arr_map (fun z => binary_normalize F32.prec F32.emax z 0 false) a
  | Float32Band a => a
  | Float64Band a => arr_map F32.of_double a
  end.

(** [read_band]: every exception of the decoding is turned into a
    [ValueError] that names the file. *)
Definition read_band (file : decoded) (filename : string) : result (ndarray spec_float) :=
  match file with
  | Decoded r => Return (astype_float32 r)
  | DecodeError msg =>
      Raise (ValueError ("Error reading band file " +:+ filename +:+ ": " +:+ msg))
  end.

Global Instance result_ret : MRet result := fun _ x => Return x.
Global Instance result_bind : MBind result := fun _ _ f r =>
  match r with
  | Return x => f x
  | Raise e => Raise e
  end.

(** The answer of an endpoint: the JSON body with the statistics, or
    an [HTTPException]. *)
Inductive response :=
  | Success (statistics : stats)
  | HTTPException (status_code : Z) (detail : string).

(** [compute_ndvi_json_endpoint]: the body of the [try], and the
    handler of [ValueError], whose [str] is its message.  (The second
    handler answers any other exception with status 500; the functions
    called in the body raise no other exception than [ValueError].) *)
Definition compute_ndvi_json_endpoint `{Reductions}
    (red_file nir_file : decoded) (red_name nir_name : string) : response :=
  let body :=
    red_array ← read_band red_file red_name;
    nir_array ← read_band nir_file nir_name;
    ndvi ← compute_ndvi red_array nir_array;
    calculate_statistics ndvi in
  match body with
  | Return st => Success st
  | Raise (ValueError msg) => HTTPException 400 msg
  end.

(** * Properties *)

(** ** Lists, masks and counts *)

Section Masks.
Context {A : Type}.
Implicit Types (l : list A) (f g : A -> bool).

Lemma select_fmap_filter f l :
  select l (f <$> l) = filter (fun x => f x = true) l.
Proof.
  induction l as [|x l IH]; [done|].
  cbn [fmap list_fmap select]. rewrite filter_cons.
  destruct (f x) eqn:Hfx; cbn [select]; rewrite IH.
  - by rewrite decide_True.
  - by rewrite decide_False.
Qed.

Lemma np_sum_fmap f l :
  np_sum (f <$> l) = Z.of_nat (length (filter (fun x => f x = true) l)).
Proof.
  unfold np_sum. f_equal.
  induction l as [|x l IH]; [done|].
  cbn [fmap list_fmap]. rewrite !filter_cons.
  destruct (f x) eqn:Hfx.
  - rewrite !decide_True by done. cbn [length]. by rewrite IH.
  - rewrite !decide_False by done. done.
Qed.

Lemma np_sum_and f g l :
  np_sum (zip_with andb (f <$> l) (g <$> l))
  = Z.of_nat (length (filter (fun x => f x && g x = true) l)).
Proof.
  rewrite <- (np_sum_fmap (fun x => f x && g x)). f_equal.
  induction l as [|x l IH]; [done|].
  cbn [fmap list_fmap zip_with]. by rewrite IH.
Qed.
End Masks.

Lemma count_healthy_band l : count_healthy l = count_band Healthy l.
Proof. apply np_sum_fmap. Qed.

Lemma count_moderate_band l : count_moderate l = count_band Moderate l.
Proof. apply (np_sum_and (fun v => F32.gtb v thr_0_4) (fun v => F32.leb v thr_0_6)). Qed.

Lemma count_stressed_band l : count_stressed l = count_band Stressed l.
Proof. apply (np_sum_and (fun v => F32.gtb v thr_0_2) (fun v => F32.leb v thr_0_4)). Qed.

Lemma count_bare_band l : count_bare l = count_band BareLand l.
Proof. apply np_sum_fmap. Qed.

Lemma count_band_nil b : count_band b [] = 0.
Proof. done. Qed.

Lemma count_band_cons b v l :
  count_band b (v :: l) = (if in_band b v then 1 else 0) + count_band b l.
Proof.
  unfold count_band. rewrite filter_cons.
  destruct (in_band b v).
  - rewrite decide_True by done. cbn [length]. lia.
  - rewrite decide_False by done. lia.
Qed.

Lemma count_band_app b l1 l2 :
  count_band b (l1 ++ l2) = count_band b l1 + count_band b l2.
Proof.
  unfold count_band. rewrite filter_app, length_app. lia.
Qed.

Lemma finite_values_filter a :
  finite_values a = filter (fun v => SFis_finite v = true) (data a).
Proof. apply select_fmap_filter. Qed.

Lemma finite_values_empty a :
  length (finite_values a) = 0%nat
  <-> Forall (fun v => SFis_finite v = false) (data a).
Proof.
  rewrite finite_values_filter.
  induction (data a) as [|v l IH]; [by split|].
  rewrite filter_cons, Forall_cons.
  destruct (SFis_finite v) eqn:Hv.
  - rewrite decide_True by done. cbn [length]. split; [lia | by intros [? _]].
  - rewrite decide_False by congruence. rewrite IH. tauto.
Qed.

Lemma finite_values_all_finite a v :
  v ∈ finite_values a -> SFis_finite v = true.
Proof. rewrite finite_values_filter, list_elem_of_filter. tauto. Qed.

(** ** The order of [SFcompare] *)

Lemma SFcompare_antisym x y c :
  SFcompare x y = Some c -> SFcompare y x = Some (CompOpp c).
Proof.
  destruct x as [sx|sx| |sx mx ex], y as [sy|sy| |sy my ey]; cbn;
    try discriminate;
    try (intros [= <-]; destruct sx; try destruct sy; reflexivity).
  intros [= <-]. f_equal.
  rewrite (Z.compare_antisym ex ey).
  pose proof (Pos.compare_cont_antisym mx my Eq) as Hm. cbn in Hm.
  destruct sx, sy; try reflexivity;
    destruct (ex ?= ey); cbn; try reflexivity; rewrite <- Hm; try reflexivity.

Qed.

Lemma SFcompare_total x y :
  SFis_nan x = false -> SFis_nan y = false -> is_Some (SFcompare x y).
Proof. destruct x, y; cbn; try discriminate; eauto. Qed.

Lemma gtb_negb_leb x t :
  SFis_nan x = false -> SFis_nan t = false ->
  F32.gtb x t = negb (F32.leb x t).
Proof.
  intros Hx Ht. unfold F32.gtb, F32.leb, SFltb, SFleb.
  destruct (SFcompare_total x t Hx Ht) as [c Hc].
  rewrite Hc, (SFcompare_antisym _ _ _ Hc). by destruct c.
Qed.

Lemma gtb_nan t : F32.gtb S754_nan t = false.
Proof. unfold F32.gtb, SFltb. by destruct t. Qed.

Lemma leb_nan t : F32.leb S754_nan t = false.
Proof. done. Qed.

Lemma SFleb_trans x y z :
  SFleb x y = true -> SFleb y z = true -> SFleb x z = true.
Proof.
  unfold SFleb.
  destruct x as [sx|sx| |sx mx ex], y as [sy|sy| |sy my ey], z as [sz|sz| |sz mz ez];
    cbn; try done;
    try (destruct sx; try destruct sy; try destruct sz; cbn; done).
  change (PosDef.Pos.compare_cont Eq) with Pos.compare.
  destruct sx, sy, sz; cbn; try done;
    destruct (Z.compare_spec ex ey), (Z.compare_spec ey ez), (Z.compare_spec ex ez);
    try lia; try done; subst;
    destruct (Pos.compare_spec mx my), (Pos.compare_spec my mz), (Pos.compare_spec mx mz);
    cbn; try lia; try done.
Qed.

Lemma thr_0_2_le_0_4 : SFleb thr_0_2 thr_0_4 = true.
Proof. reflexivity. Qed.

Lemma thr_0_4_le_0_6 : SFleb thr_0_4 thr_0_6 = true.
Proof. reflexivity. Qed.

Lemma in_band_leb v :
  SFis_nan v = false ->
  exists a b c : bool,
    (a = true -> b = true) /\ (b = true -> c = true) /\
    forall bd, in_band bd v =
      match bd with
      | Healthy => negb c
      | Moderate => negb b && c
      | Stressed => negb a && b
      | BareLand => a
      end.
Proof.
  intros Hn.
  exists (SFleb v thr_0_2), (SFleb v thr_0_4), (SFleb v thr_0_6).
  split; [|split].
  - intros H. exact (SFleb_trans _ _ _ H thr_0_2_le_0_4).
  - intros H. exact (SFleb_trans _ _ _ H thr_0_4_le_0_6).
  - intros []; unfold in_band; rewrite ?(gtb_negb_leb v) by done; reflexivity.
Qed.

Lemma in_band_nan bd : in_band bd S754_nan = false.
Proof. by destruct bd. Qed.

(** A value lies in at most one band. *)
Lemma in_band_unique b1 b2 v :
  in_band b1 v = true -> in_band b2 v = true -> b1 = b2.
Proof.
  destruct (SFis_nan v) eqn:Hn.
  { destruct v; try discriminate. by rewrite in_band_nan. }
  destruct (in_band_leb v Hn) as (a & b & c & Hab & Hbc & Hb).
  rewrite !Hb.
  destruct a, b, c, b1, b2; cbn; intros; try done;
    try (specialize (Hab eq_refl)); try (specialize (Hbc eq_refl)); done.
Qed.

(** A value that is not NaN lies in some band. *)
Lemma in_band_exists v :
  SFis_nan v = false -> exists b, in_band b v = true.
Proof.
  intros Hn. destruct (in_band_leb v Hn) as (a & b & c & Hab & Hbc & Hb).
  destruct a eqn:Ha; [exists BareLand; by rewrite Hb|].
  destruct b eqn:Hb'; [exists Stressed; by rewrite Hb|].
  destruct c eqn:Hc; [exists Moderate; by rewrite Hb|].
  exists Healthy; by rewrite Hb.
Qed.

Lemma band_indicator_sum v :
  SFis_nan v = false ->
  (if in_band Healthy v then 1 else 0) + (if in_band Moderate v then 1 else 0)
  + (if in_band Stressed v then 1 else 0) + (if in_band BareLand v then 1 else 0) = 1.
Proof.
  intros Hn. destruct (in_band_leb v Hn) as (a & b & c & Hab & Hbc & Hb).
  rewrite !Hb.
  destruct a, b, c; cbn; try done;
    try (specialize (Hab eq_refl)); try (specialize (Hbc eq_refl)); done.
Qed.

Lemma finite_not_nan v : SFis_finite v = true -> SFis_nan v = false.
Proof. by destruct v. Qed.

(** The four counts add up to the number of values when none is NaN. *)
Lemma count_band_sum l :
  Forall (fun v => SFis_nan v = false) l ->
  count_band Healthy l + count_band Moderate l
  + count_band Stressed l + count_band BareLand l = Z.of_nat (length l).
Proof.
  induction 1 as [|v l Hv _ IH]; [done|].
  rewrite !count_band_cons. cbn [length].
  pose proof (band_indicator_sum v Hv). lia.
Qed.

(** ** [compute_ndvi], pixel by pixel *)

Lemma ndvi_data_pixelwise (nir red : list spec_float) :
  let numerator := zip_with F32.sub nir red in
  let denominator := zip_with F32.add nir red in
  let mask := (fun d => F32.gtb d epsilon) <$> (F32.abs <$> denominator) in
  clip clip_min clip_max <$>
    put ((fun _ => F32.zero) <$> numerator) mask
        (zip_with F32.div (select numerator mask) (select denominator mask))
  = zip_with (fun n r => ndvi_pixel r n) nir red.
Proof.
  cbv zeta. revert red.
  induction nir as [|n nir IH]; intros [|r red]; try done.
  cbn [zip_with fmap list_fmap select put].
  unfold ndvi_pixel at 1.
  destruct (F32.gtb (F32.abs (F32.add n r)) epsilon);
    cbn [zip_with fmap list_fmap select put]; f_equal; apply IH.
Qed.

Lemma compute_ndvi_eq red nir :
  shape red = shape nir ->
  compute_ndvi red nir
  = Return (NdArray (shape nir)
              (zip_with (fun n r => ndvi_pixel r n) (data nir) (data red))).
Proof.
  intros Hs. unfold compute_ndvi. rewrite decide_False by (by intros []).
  unfold np_clip, masked_assign, masked_select, zeros_like, arr_map, arr_zip.
  cbn [shape data]. by rewrite ndvi_data_pixelwise.
Qed.

Lemma compute_ndvi_lookup red nir out i r n :
  compute_ndvi red nir = Return out ->
  data red !! i = Some r -> data nir !! i = Some n ->
  data out !! i = Some (ndvi_pixel r n).
Proof.
  destruct (decide (shape red = shape nir)) as [Hs|Hs].
  - rewrite (compute_ndvi_eq red nir Hs). intros [= <-] Hr Hn. cbn [data].
    rewrite lookup_zip_with, Hn. cbn. by rewrite Hr.
  - unfold compute_ndvi. by rewrite decide_True.
Qed.


(** ** Binary digits and shifts *)

Lemma digits2_pos_bounds p :
  2 ^ (Zpos (digits2_pos p) - 1) <= Zpos p < 2 ^ Zpos (digits2_pos p).
Proof.
  induction p as [p IH|p IH|]; cbn [digits2_pos].
  - rewrite Pos2Z.inj_succ, (Pos2Z.inj_xI p).
    replace (Z.succ (Zpos (digits2_pos p)) - 1) with (Z.succ (Zpos (digits2_pos p) - 1)) by lia.
    rewrite !Z.pow_succ_r by lia. lia.
  - rewrite Pos2Z.inj_succ, (Pos2Z.inj_xO p).
    replace (Z.succ (Zpos (digits2_pos p)) - 1) with (Z.succ (Zpos (digits2_pos p) - 1)) by lia.
    rewrite !Z.pow_succ_r by lia. lia.
  - cbn. lia.
Qed.

Lemma Zdigits2_bounds m :
  0 < m -> 2 ^ (Zdigits2 m - 1) <= m < 2 ^ Zdigits2 m.
Proof. destruct m as [|p|p]; try lia. intros _. apply digits2_pos_bounds. Qed.

Lemma Zdigits2_nonneg m : 0 <= Zdigits2 m.
Proof. destruct m; cbn; lia. Qed.

Lemma Zdigits2_pos m : 0 < m -> 0 < Zdigits2 m.
Proof. destruct m; cbn; lia. Qed.

Lemma Zdigits2_unique m d :
  2 ^ (d - 1) <= m < 2 ^ d -> 0 < m -> Zdigits2 m = d.
Proof.
  intros [Hlo Hhi] Hm.
  destruct (Zdigits2_bounds m Hm) as [Hlo' Hhi'].
  pose proof (Zdigits2_pos m Hm) as Hd.
  assert (Hd0 : 0 < d).
  { destruct (Z_lt_le_dec 0 d) as [|Hle]; [done|].
    assert (2 ^ d <= 2 ^ 0) by (apply Z.pow_le_mono_r; lia).
    cbn in *. lia. }
  destruct (Z_lt_le_dec (Zdigits2 m) d) as [Hlt|Hge].
  - assert (2 ^ Zdigits2 m <= 2 ^ (d - 1)) by (apply Z.pow_le_mono_r; lia). lia.
  - destruct (Z_lt_le_dec d (Zdigits2 m)) as [Hlt|Hle]; [|lia].
    assert (2 ^ d <= 2 ^ (Zdigits2 m - 1)) by (apply Z.pow_le_mono_r; lia). lia.
Qed.

Lemma Zdigits2_le_iff m d :
  0 < m -> 0 <= d -> (Zdigits2 m <= d <-> m < 2 ^ d).
Proof.
  intros Hm Hd. destruct (Zdigits2_bounds m Hm) as [Hlo Hhi]. split.
  - intros Hle. assert (2 ^ Zdigits2 m <= 2 ^ d) by (apply Z.pow_le_mono_r; lia). lia.
  - intros Hlt. destruct (Z_lt_le_dec d (Zdigits2 m)) as [Hgt|]; [|lia].
    assert (2 ^ d <= 2 ^ (Zdigits2 m - 1)) by (apply Z.pow_le_mono_r; lia). lia.
Qed.

Lemma Zdigits2_mono m n : 0 < m -> m <= n -> Zdigits2 m <= Zdigits2 n.
Proof.
  intros Hm Hmn.
  apply Zdigits2_le_iff; [done|apply Zdigits2_nonneg|].
  destruct (Zdigits2_bounds n) as [_ Hhi]; lia.
Qed.

Lemma Zdigits2_succ_le m : 0 <= m -> Zdigits2 (m + 1) <= Zdigits2 m + 1.
Proof.
  intros Hm. destruct (Z.eq_dec m 0) as [->|Hne]; [exact (Z.le_refl 1)|].
  apply Zdigits2_le_iff; [lia|pose proof (Zdigits2_nonneg m); lia|].
  destruct (Zdigits2_bounds m) as [_ Hhi]; [lia|].
  rewrite Z.pow_add_r by (pose proof (Zdigits2_nonneg m); lia). lia.
Qed.

(** Dropping [k] low bits drops [k] digits. *)
Lemma Zdigits2_div_pow2 m k :
  0 < m -> 0 <= k < Zdigits2 m -> Zdigits2 (m / 2 ^ k) = Zdigits2 m - k.
Proof.
  intros Hm Hk. destruct (Zdigits2_bounds m Hm) as [Hlo Hhi].
  assert (Hp : 0 < 2 ^ k) by (apply Z.pow_pos_nonneg; lia).
  assert (Hq : 2 ^ (Zdigits2 m - k - 1) <= m / 2 ^ k).
  { apply Z.div_le_lower_bound; [done|].
    rewrite <- Z.pow_add_r by lia.
    replace (k + (Zdigits2 m - k - 1)) with (Zdigits2 m - 1) by lia. done. }
  apply Zdigits2_unique.
  - split; [done|].
    apply Z.div_lt_upper_bound; [done|].
    rewrite <- Z.pow_add_r by lia.
    replace (k + (Zdigits2 m - k)) with (Zdigits2 m) by lia. done.
  - eapply Z.lt_le_trans; [|exact Hq]. apply Z.pow_pos_nonneg; lia.
Qed.

Lemma div_pow2_small m k :
  0 <= m -> Zdigits2 m <= k -> m / 2 ^ k = 0.
Proof.
  intros Hm Hk. destruct (Z.eq_dec m 0) as [->|Hne]; [apply Z.div_0_l, Z.pow_nonzero; [lia|exact Hk]|].
  apply Z.div_small. split; [done|].
  apply Zdigits2_le_iff; [lia| |done].
  pose proof (Zdigits2_nonneg m). lia.
Qed.

Lemma Zdigits2_mul_pow2 m k :
  0 < m -> 0 <= k -> Zdigits2 (m * 2 ^ k) = Zdigits2 m + k.
Proof.
  intros Hm Hk. destruct (Zdigits2_bounds m Hm) as [Hlo Hhi].
  pose proof (Zdigits2_pos m Hm) as Hd.
  assert (Hp : 0 < 2 ^ k) by (apply Z.pow_pos_nonneg; lia).
  apply Zdigits2_unique; [|nia].
  replace (Zdigits2 m + k - 1) with ((Zdigits2 m - 1) + k) by lia.
  rewrite !Z.pow_add_r by lia. nia.
Qed.

Lemma Zdigits2_pow2 d : 0 <= d -> Zdigits2 (2 ^ d) = d + 1.
Proof.
  intros Hd. apply Zdigits2_unique.
  - replace (d + 1 - 1) with d by lia. split; [lia|].
    apply Z.pow_lt_mono_r; lia.
  - apply Z.pow_pos_nonneg; lia.
Qed.

(** A successor that gains a digit is a power of two. *)
Lemma Zdigits2_succ_pow2 m :
  0 <= m -> Zdigits2 (m + 1) = Zdigits2 m + 1 -> m + 1 = 2 ^ Zdigits2 m.
Proof.
  intros Hm Hd. destruct (Z.eq_dec m 0) as [->|Hne]; [done|].
  destruct (Zdigits2_bounds m) as [_ Hhi]; [lia|].
  destruct (Zdigits2_bounds (m + 1)) as [Hlo _]; [lia|].
  rewrite Hd in Hlo. replace (Zdigits2 m + 1 - 1) with (Zdigits2 m) in Hlo by lia. lia.
Qed.

Lemma shr_1_m mrs : 0 <= shr_m mrs -> shr_m (shr_1 mrs) = shr_m mrs / 2.
Proof.
  destruct mrs as [m r s]. cbn [shr_m]. intros Hm.
  rewrite <- Z.div2_div.
  destruct m as [|[p|p|]|p]; try lia; reflexivity.
Qed.

Lemma iter_pos_shr_m p mrs :
  0 <= shr_m mrs -> shr_m (SpecFloat.iter_pos shr_1 p mrs) = shr_m mrs / 2 ^ Zpos p.
Proof.
  assert (Hpp : forall q, 0 < 2 ^ Zpos q) by (intros; apply Z.pow_pos_nonneg; lia).
  assert (Hnn : forall q x, 0 <= x -> 0 <= x / 2 ^ Zpos q).
  { intros q x Hx. apply Z.div_pos; [done|apply Hpp]. }
  revert mrs. induction p as [p IH|p IH|]; intros mrs Hm; cbn [SpecFloat.iter_pos].
  - assert (H1 : 0 <= shr_m (shr_1 mrs)).
    { rewrite shr_1_m by done. apply Z.div_pos; lia. }
    rewrite IH by (rewrite IH by done; by apply Hnn).
    rewrite IH, shr_1_m by done.
    pose proof (Hpp p).
    rewrite !Zdiv.Zdiv_Zdiv by lia.
    f_equal. rewrite (Pos2Z.inj_xI p).
    replace (2 * Zpos p + 1) with (1 + Zpos p + Zpos p) by lia.
    rewrite !Z.pow_add_r by lia. lia.
  - rewrite IH by (rewrite IH by done; by apply Hnn).
    rewrite IH by done.
    pose proof (Hpp p).
    rewrite !Zdiv.Zdiv_Zdiv by lia.
    f_equal. rewrite (Pos2Z.inj_xO p).
    replace (2 * Zpos p) with (Zpos p + Zpos p) by lia.
    rewrite !Z.pow_add_r by lia. lia.
  - by rewrite shr_1_m.
Qed.

Lemma shr_spec mrs e n :
  0 <= shr_m mrs ->
  shr_m (fst (shr mrs e n)) = shr_m mrs / 2 ^ Z.max 0 n
  /\ snd (shr mrs e n) = e + Z.max 0 n.
Proof.
  intros Hm. destruct n as [|p|p]; cbn [shr fst snd].
  - rewrite Z.max_l by lia. rewrite Z.div_1_r. lia.
  - rewrite Z.max_r by lia. by rewrite iter_pos_shr_m.
  - rewrite Z.max_l by lia. rewrite Z.div_1_r. lia.
Qed.

Lemma shr_m_record_of_loc m l : shr_m (shr_record_of_loc m l) = m.
Proof. by destruct l as [|[]]. Qed.

Lemma loc_of_record_of_loc m l : loc_of_shr_record (shr_record_of_loc m l) = l.
Proof. by destruct l as [|[]]. Qed.

Lemma round_nearest_even_cases m l :
  round_nearest_even m l = m \/ round_nearest_even m l = m + 1.
Proof. destruct l as [|[]]; cbn; try destruct (Z.even m); auto. Qed.

Lemma shl_align_spec mx ex ex' :
  snd (shl_align mx ex ex') = Z.min ex ex'
  /\ Zpos (fst (shl_align mx ex ex')) = Zpos mx * 2 ^ (ex - Z.min ex ex').
Proof.
  unfold shl_align. destruct (ex' - ex) as [|d|d] eqn:Hd; cbn [fst snd].
  - rewrite Z.min_l by lia. replace (ex - ex) with 0 by lia. lia.
  - rewrite Z.min_l by lia. replace (ex - ex) with 0 by lia. lia.
  - rewrite Z.min_r by lia. split; [done|].
    replace (ex - ex') with (Zpos d) by lia.
    clear Hd. induction d as [|d IH] using Pos.peano_ind.
    + cbn [Pos.iter]. rewrite (Pos2Z.inj_xO mx). lia.
    + rewrite Pos.iter_succ, (Pos2Z.inj_xO (Pos.iter _ _ _)), IH,
        Pos2Z.inj_succ, Z.pow_succ_r by lia. lia.
Qed.

(** ** Rounding to a format *)

Section Rounding.
Variables prec emax : Z.
Hypothesis prec_gt_0 : 0 < prec.
Hypothesis prec_lt_emax : prec < emax.

Local Abbreviation fexp := (SpecFloat.fexp prec emax).
Local Abbreviation emin := (SpecFloat.emin prec emax).

Lemma fexp_mono a b : a <= b -> fexp a <= fexp b.
Proof. unfold SpecFloat.fexp. lia. Qed.

Lemma fexp_succ a : fexp (a + 1) <= fexp a + 1.
Proof. unfold SpecFloat.fexp. lia. Qed.

Lemma fexp_ge_emin a : emin <= fexp a.
Proof. unfold SpecFloat.fexp. lia. Qed.

Lemma emin_lt_emax : emin < emax - prec.
Proof. unfold SpecFloat.emin. lia. Qed.

(** [binary_round_aux] in terms of integer division. *)
Lemma binary_round_aux_unfold s m e l :
  0 <= m ->
  exists m2,
    let k1 := Z.max 0 (fexp (Zdigits2 m + e) - e) in
    let e1 := e + k1 in
    let k2 := Z.max 0 (fexp (Zdigits2 m2 + e1) - e1) in
    (m2 = m / 2 ^ k1 \/ m2 = m / 2 ^ k1 + 1)
    /\ (k1 = 0 -> l = loc_Exact -> m2 = m)
    /\ binary_round_aux prec emax s m e l
       = match m2 / 2 ^ k2 with
         | Z0 => S754_zero s
         | Zpos m3 =>
             if e1 + k2 <=? emax - prec then S754_finite s m3 (e1 + k2)
             else S754_infinity s
         | Zneg _ => S754_nan
         end.
Proof.
  intros Hm. unfold binary_round_aux, shr_fexp.
  set (n1 := fexp (Zdigits2 m + e) - e).
  pose proof (shr_spec (shr_record_of_loc m l) e n1) as H1.
  rewrite shr_m_record_of_loc in H1. specialize (H1 Hm).
  destruct (shr (shr_record_of_loc m l) e n1) as [mrs' e'] eqn:Hshr.
  cbn [fst snd] in H1. destruct H1 as [Hm1 He1].
  set (m2 := round_nearest_even (shr_m mrs') (loc_of_shr_record mrs')).
  exists m2. cbv zeta.
  assert (Hm1nn : 0 <= m / 2 ^ Z.max 0 n1).
  { apply Z.div_pos; [done|]. apply Z.pow_pos_nonneg; lia. }
  assert (Hcases : m2 = m / 2 ^ Z.max 0 n1 \/ m2 = m / 2 ^ Z.max 0 n1 + 1).
  { rewrite <- Hm1. apply round_nearest_even_cases. }
  split; [exact Hcases|]. split.
  - intros Hk Hl. subst l.
    assert (Hn : n1 <= 0) by lia.
    unfold m2. destruct n1 as [|p|p]; try lia; cbn [shr] in Hshr;
      injection Hshr as <- <-; reflexivity.
  - pose proof (shr_spec (shr_record_of_loc m2 loc_Exact) e'
                  (fexp (Zdigits2 m2 + e') - e')) as H2.
    rewrite shr_m_record_of_loc in H2. specialize (H2 ltac:(lia)).
    destruct (shr (shr_record_of_loc m2 loc_Exact) e' (fexp (Zdigits2 m2 + e') - e'))
      as [mrs'' e''] eqn:Hshr2.
    cbn [fst snd] in H2. destruct H2 as [Hm3 He3].
    rewrite Hm3, He3, He1. reflexivity.
Qed.

(** Whatever its input, [binary_round_aux] returns a zero, an infinity
    or a finite number with at most [prec] digits, never NaN. *)
Lemma binary_round_aux_shape s m e l :
  0 <= m ->
  binary_round_aux prec emax s m e l = S754_zero s
  \/ binary_round_aux prec emax s m e l = S754_infinity s
  \/ exists m3 e3,
       binary_round_aux prec emax s m e l = S754_finite s m3 e3
       /\ Zdigits2 (Zpos m3) <= prec /\ e3 <= emax - prec.
Proof.
  intros Hm.
  destruct (binary_round_aux_unfold s m e l Hm) as (m2 & Hcases & _ & ->).
  cbv zeta.
  set (e1 := e + Z.max 0 (fexp (Zdigits2 m + e) - e)).
  set (n2 := fexp (Zdigits2 m2 + e1) - e1).
  assert (Hm2 : 0 <= m2).
  { assert (0 <= m / 2 ^ Z.max 0 (fexp (Zdigits2 m + e) - e)).
    { apply Z.div_pos; [done|]. apply Z.pow_pos_nonneg; lia. }
    lia. }
  destruct (m2 / 2 ^ Z.max 0 n2) as [|m3|m3] eqn:Hm3; [by left| |].
  - destruct (Z.leb_spec (e1 + Z.max 0 n2) (emax - prec)) as [Hle|Hgt]; [|by right; left].
    right; right. exists m3, (e1 + Z.max 0 n2). split; [done|]. split; [|done].
    rewrite <- Hm3.
    assert (Hm2pos : 0 < m2).
    { destruct (Z.eq_dec m2 0) as [H0|]; [|lia].
      rewrite H0, Z.div_0_l in Hm3 by (apply Z.pow_nonzero; lia). discriminate. }
    assert (Hk : Z.max 0 n2 < Zdigits2 m2).
    { destruct (Z_lt_le_dec (Z.max 0 n2) (Zdigits2 m2)) as [|Hge]; [done|].
      rewrite div_pow2_small in Hm3 by lia. discriminate. }
    rewrite Zdigits2_div_pow2 by lia.
    unfold n2, SpecFloat.fexp. lia.
  - assert (0 <= m2 / 2 ^ Z.max 0 n2).
    { apply Z.div_pos; [done|]. apply Z.pow_pos_nonneg; lia. }
    lia.
Qed.

(** On an input whose exponent is not above the target exponent the
    result is canonical, and it is one of the two neighbours of the
    input on the grid of the target exponent. *)
Lemma binary_round_aux_aligned s m e l :
  0 <= m -> e <= fexp (Zdigits2 m + e) ->
  let e1 := fexp (Zdigits2 m + e) in
  let m1 := m / 2 ^ (e1 - e) in
  exists m2,
    (m2 = m1 \/ m2 = m1 + 1)
    /\ (e1 = e -> l = loc_Exact -> m2 = m)
    /\ ((m2 = 0 /\ binary_round_aux prec emax s m e l = S754_zero s)
        \/ exists m3 e3,
             Zpos m3 * 2 ^ (e3 - e1) = m2
             /\ e1 <= e3
             /\ e3 = fexp (Zdigits2 m2 + e1)
             /\ Zdigits2 (Zpos m3) + e3 = Zdigits2 m2 + e1
             /\ binary_round_aux prec emax s m e l
                = if e3 <=? emax - prec then S754_finite s m3 e3
                  else S754_infinity s).
Proof.
  intros Hm Hal. cbv zeta.
  destruct (binary_round_aux_unfold s m e l Hm) as (m2 & Hcases & Hex & ->).
  cbv zeta in *.
  set (e1 := fexp (Zdigits2 m + e)) in *.
  assert (Hmax : Z.max 0 (e1 - e) = e1 - e) by lia.
  rewrite ?Hmax in Hcases, Hex |- *. clear Hmax.
  replace (e + (e1 - e)) with e1 by lia.
  set (m1 := m / 2 ^ (e1 - e)) in *.
  exists m2. split; [done|]. split; [intros; apply Hex; [lia|done]|].
  assert (Hm1 : 0 <= m1).
  { apply Z.div_pos; [done|]. apply Z.pow_pos_nonneg; lia. }
  destruct (Z.eq_dec m2 0) as [H0|Hne].
  { left. split; [done|]. rewrite H0, Z.div_0_l; [done|].
    apply Z.pow_nonzero; lia. }
  right.
  assert (Hm2 : 0 < m2) by lia.
  (* the second shift is by zero or one position, and loses nothing *)
  assert (Hk2 : fexp (Zdigits2 m2 + e1) = e1
                \/ (fexp (Zdigits2 m2 + e1) = e1 + 1 /\ m2 = 2 ^ (Zdigits2 m2 - 1)
                    /\ 1 < Zdigits2 m2)).
  { destruct (Z.eq_dec m1 0) as [Hz|Hnz].
    - (* everything was shifted out: the exponent is the least one *)
      assert (m2 = 1) as -> by lia. left.
      assert (He1 : e1 = emin).
      { destruct (Z.eq_dec m 0) as [->|Hmne].
        - unfold e1, SpecFloat.fexp in *. cbn [Zdigits2] in *. lia.
        - destruct (Z_lt_le_dec (e1 - e) (Zdigits2 m)) as [Hlt|Hge].
          + pose proof (Zdigits2_div_pow2 m (e1 - e) ltac:(lia) ltac:(lia)) as Hd.
            fold m1 in Hd. rewrite Hz in Hd. cbn [Zdigits2] in Hd. lia.
          + unfold e1, SpecFloat.fexp in *. lia. }
      rewrite He1. cbn [Zdigits2 digits2_pos]. unfold SpecFloat.fexp. lia.
    - assert (Hmpos : 0 < m).
      { destruct (Z.eq_dec m 0) as [Hm0|]; [|lia].
        exfalso; apply Hnz; unfold m1; rewrite Hm0.
        apply Z.div_0_l, Z.pow_nonzero; lia. }
      assert (Hd1 : Zdigits2 m1 + e1 = Zdigits2 m + e).
      { destruct (Z_lt_le_dec (e1 - e) (Zdigits2 m)) as [Hlt|Hge].
        - unfold m1. rewrite Zdigits2_div_pow2; lia.
        - unfold m1 in Hnz. rewrite div_pow2_small in Hnz; lia. }
      assert (Hf1 : fexp (Zdigits2 m1 + e1) = e1) by (by rewrite Hd1).
      destruct Hcases as [->| ->]; [by left|].
      pose proof (Zdigits2_succ_le m1 Hm1) as Hs.
      pose proof (Zdigits2_mono m1 (m1 + 1) ltac:(lia) ltac:(lia)) as Hmo.
      destruct (Z.eq_dec (Zdigits2 (m1 + 1)) (Zdigits2 m1)) as [Heq|Hneq].
      + left. by rewrite Heq.
      + assert (Hd2 : Zdigits2 (m1 + 1) = Zdigits2 m1 + 1) by lia.
        pose proof (Zdigits2_succ_pow2 m1 Hm1 Hd2) as Hpow.
        pose proof (fexp_succ (Zdigits2 m1 + e1)) as Hfs.
        pose proof (fexp_mono (Zdigits2 m1 + e1) (Zdigits2 m1 + e1 + 1) ltac:(lia)) as Hfm.
        rewrite Hd2. replace (Zdigits2 m1 + 1 + e1) with (Zdigits2 m1 + e1 + 1) by lia.
        destruct (Z.eq_dec (fexp (Zdigits2 m1 + e1 + 1)) e1) as [|Hne1]; [by left|].
        right. split; [lia|].
        replace (Zdigits2 m1 + 1 - 1) with (Zdigits2 m1) by lia.
        split; [done|]. pose proof (Zdigits2_pos m1 ltac:(lia)). lia. }
  destruct Hk2 as [Hk2|(Hk2 & Hpow & Hd2)].
  - rewrite Hk2. replace (e1 - e1) with 0 by lia.
    rewrite (Z.max_l 0 0) by lia. rewrite Z.pow_0_r, Z.div_1_r, Z.add_0_r.
    destruct m2 as [|m3|m3]; try lia.
    exists m3, e1. replace (e1 - e1) with 0 by lia. rewrite Z.pow_0_r.
    repeat split; try lia; done.
  - rewrite Hk2. replace (e1 + 1 - e1) with 1 by lia. rewrite (Z.max_r 0 1) by lia.
    assert (Hdiv : m2 / 2 ^ 1 = 2 ^ (Zdigits2 m2 - 2)).
    { rewrite Hpow at 1. replace (Zdigits2 m2 - 1) with (1 + (Zdigits2 m2 - 2)) by lia.
      rewrite Z.pow_add_r by lia. rewrite Z.mul_comm, Z.div_mul; lia. }
    rewrite Hdiv.
    assert (Hp : 0 < 2 ^ (Zdigits2 m2 - 2)) by (apply Z.pow_pos_nonneg; lia).
    destruct (2 ^ (Zdigits2 m2 - 2)) as [|m3|m3] eqn:Hm3; try lia.
    exists m3, (e1 + 1). replace (e1 + 1 - e1) with 1 by lia.
    split.
    { rewrite <- Hm3. rewrite Hpow at 2.
      replace (Zdigits2 m2 - 1) with ((Zdigits2 m2 - 2) + 1) by lia.
      rewrite Z.pow_add_r by lia. done. }
    split; [lia|]. split; [done|]. split; [|done].
    rewrite <- Hm3, Zdigits2_pow2 by lia. lia.
Qed.

(** [binary_round]: the input is first brought to the target exponent. *)
Lemma binary_round_spec s m e :
  let e1 := fexp (Zdigits2 (Zpos m) + e) in
  exists m2,
    (e1 <= e -> m2 = Zpos m * 2 ^ (e - e1))
    /\ (e <= e1 -> m2 = Zpos m / 2 ^ (e1 - e) \/ m2 = Zpos m / 2 ^ (e1 - e) + 1)
    /\ ((m2 = 0 /\ binary_round prec emax s m e = S754_zero s)
        \/ exists m3 e3,
             Zpos m3 * 2 ^ (e3 - e1) = m2
             /\ e1 <= e3
             /\ e3 = fexp (Zdigits2 m2 + e1)
             /\ Zdigits2 (Zpos m3) + e3 = Zdigits2 m2 + e1
             /\ binary_round prec emax s m e
                = if e3 <=? emax - prec then S754_finite s m3 e3
                  else S754_infinity s).
Proof.
  cbv zeta. unfold binary_round.
  set (e1 := fexp (Z.pos (digits2_pos m) + e)).
  change (Zdigits2 (Zpos m)) with (Zpos (digits2_pos m)). fold e1.
  destruct (shl_align_spec m e e1) as [Hez Hmz].
  destruct (shl_align m e e1) as [mz ez]. cbn [fst snd] in Hez, Hmz.
  assert (Hdz : Zdigits2 (Zpos mz) + ez = Zpos (digits2_pos m) + e).
  { rewrite Hmz, Zdigits2_mul_pow2 by lia. cbn [Zdigits2]. lia. }
  assert (Hal : ez <= fexp (Zdigits2 (Zpos mz) + ez)) by (rewrite Hdz; fold e1; lia).
  destruct (binary_round_aux_aligned s (Zpos mz) ez loc_Exact ltac:(lia) Hal)
    as (m2 & Hcases & Hex & Hres).
  rewrite Hdz in Hcases, Hex, Hres. fold e1 in Hcases, Hex, Hres.
  exists m2. split; [|split].
  - intros Hle. rewrite Hex by (try done; lia). rewrite Hmz. do 2 f_equal. lia.
  - intros Hle. assert (ez = e) as -> by lia.
    assert (Zpos mz = Zpos m) as <-; [|done].
    rewrite Hmz. replace (e - Z.min e e1) with 0 by lia. rewrite Z.pow_0_r. lia.
  - exact Hres.
Qed.

Lemma binary_round_valid s m e :
  valid_binary prec emax (binary_round prec emax s m e) = true.
Proof.
  destruct (binary_round_spec s m e)
    as (m2 & _ & _ & [[_ ->]|(m3 & e3 & _ & _ & He3 & Hd & ->)]); [done|].
  destruct (Z.leb_spec e3 (emax - prec)) as [Hle|]; [|done].
  cbn [valid_binary]. unfold bounded, canonical_mantissa.
  apply andb_true_intro. split; [|by apply Z.leb_le].
  apply Z.eqb_eq. change (Zpos (digits2_pos m3)) with (Zdigits2 (Zpos m3)).
  by rewrite Hd.
Qed.

Lemma binary_round_not_nan s m e :
  SFis_nan (binary_round prec emax s m e) = false.
Proof.
  destruct (binary_round_spec s m e)
    as (m2 & _ & _ & [[_ ->]|(m3 & e3 & _ & _ & _ & _ & ->)]); [done|].
  by destruct (e3 <=? emax - prec).
Qed.

(** A number below the largest finite one is not rounded to infinity. *)
Lemma binary_round_no_overflow s m e :
  e <= emax - prec ->
  Zpos m < (2 ^ prec - 1) * 2 ^ (emax - prec - e) ->
  SFis_finite (binary_round prec emax s m e) = true.
Proof.
  intros He Hm.
  destruct (binary_round_spec s m e)
    as (m2 & Hhi & Hlo & [[_ ->]|(m3 & e3 & Hv & He13 & He3 & Hd & ->)]); [done|].
  destruct (Z.leb_spec e3 (emax - prec)) as [|Hgt]; [done|]. exfalso.
  set (d := Zdigits2 (Zpos m)) in *.
  set (e1 := fexp (d + e)) in *.
  assert (Hpp : 0 < 2 ^ prec) by (apply Z.pow_pos_nonneg; lia).
  assert (Hpe : 0 < 2 ^ (emax - prec - e)) by (apply Z.pow_pos_nonneg; lia).
  assert (Hde : d + e <= emax).
  { assert (Hlt : Zpos m < 2 ^ (emax - e)).
    { replace (emax - e) with (prec + (emax - prec - e)) by lia.
      rewrite Z.pow_add_r by lia. nia. }
    apply (Zdigits2_le_iff (Zpos m) (emax - e)) in Hlt; [fold d in Hlt|..]; lia. }
  assert (Hm2 : 0 < m2).
  { rewrite <- Hv. apply Z.mul_pos_pos; [lia|]. apply Z.pow_pos_nonneg; lia. }
  assert (He1 : e1 <= emax - prec).
  { unfold e1, SpecFloat.fexp. pose proof emin_lt_emax. lia. }
  assert (Hd2 : prec < Zdigits2 m2).
  { unfold SpecFloat.fexp in He3. pose proof emin_lt_emax. lia. }
  (* the rounded significand has more than [prec] digits: it is at least 2^prec *)
  assert (Hbig : 2 ^ prec <= m2).
  { destruct (Zdigits2_bounds m2 Hm2) as [Hlo2 _].
    assert (2 ^ prec <= 2 ^ (Zdigits2 m2 - 1)) by (apply Z.pow_le_mono_r; lia). lia. }
  destruct (Z_le_gt_dec e1 e) as [Hle|Hgt1].
  - (* no rounding: the significand has [d + e - e1] digits *)
    specialize (Hhi Hle). rewrite Hhi in Hd2.
    rewrite Zdigits2_mul_pow2 in Hd2 by lia. fold d in Hd2.
    unfold e1, SpecFloat.fexp in Hle, Hd2. lia.
  - destruct (Hlo ltac:(lia)) as [Hm2eq|Hm2eq].
    + assert (Zdigits2 m2 <= prec); [|lia].
      destruct (Z_lt_le_dec (e1 - e) d) as [Hlt|Hge].
      * rewrite Hm2eq, Zdigits2_div_pow2 by (fold d; lia). fold d.
        unfold e1, SpecFloat.fexp. lia.
      * rewrite Hm2eq, div_pow2_small in Hm2 by (fold d; lia). lia.
    + (* rounded up to 2^prec: the input was at least (2^prec - 1) 2^(e1 - e) *)
      assert (He1eq : e1 = emax - prec).
      { destruct (Z_lt_le_dec (e1 - e) d) as [Hlt|Hge].
        - assert (Hs : Zdigits2 m2 <= Zdigits2 (Zpos m / 2 ^ (e1 - e)) + 1).
          { rewrite Hm2eq. apply Zdigits2_succ_le.
            apply Z.div_pos; [lia|]. apply Z.pow_pos_nonneg; lia. }
          rewrite Zdigits2_div_pow2 in Hs by (fold d; lia). fold d in Hs.
          pose proof emin_lt_emax.
          unfold e1, SpecFloat.fexp in Hlt, Hs, He1, Hgt1, He3 |- *. lia.
        - rewrite div_pow2_small in Hm2eq by (fold d; lia).
          rewrite Hm2eq in Hd2. change (Zdigits2 (0 + 1)) with 1 in Hd2. lia. }
      assert (Hq : Zpos m / 2 ^ (e1 - e) < 2 ^ prec - 1).
      { apply Z.div_lt_upper_bound; [apply Z.pow_pos_nonneg; lia|].
        rewrite He1eq. lia. }
      lia.
Qed.

Lemma bounded_inv m e :
  bounded prec emax m e = true ->
  Zpos m < 2 ^ prec /\ e <= emax - prec /\ emin <= e
  /\ fexp (Zdigits2 (Zpos m) + e) = e.
Proof.
  unfold bounded, canonical_mantissa. intros [Hc He]%andb_prop.
  apply Z.eqb_eq in Hc. apply Z.leb_le in He.
  change (Zpos (digits2_pos m)) with (Zdigits2 (Zpos m)) in Hc.
  split; [|split; [done|split; [|done]]].
  - apply Zdigits2_le_iff; [lia..|]. unfold SpecFloat.fexp in Hc. lia.
  - rewrite <- Hc. apply fexp_ge_emin.
Qed.

Lemma binary_normalize_valid m e sz :
  valid_binary prec emax (binary_normalize prec emax m e sz) = true.
Proof. destruct m; [done|apply binary_round_valid..]. Qed.

Lemma binary_normalize_not_nan m e sz :
  SFis_nan (binary_normalize prec emax m e sz) = false.
Proof. destruct m; [done|apply binary_round_not_nan..]. Qed.

Lemma binary_normalize_no_overflow m e sz :
  e <= emax - prec ->
  Z.abs m < (2 ^ prec - 1) * 2 ^ (emax - prec - e) ->
  SFis_finite (binary_normalize prec emax m e sz) = true.
Proof.
  intros He Hm. destruct m; [done|apply binary_round_no_overflow; [done|lia]..].
Qed.

(** Sums and differences of valid numbers are valid. *)
Lemma SFadd_valid x y :
  valid_binary prec emax x = true -> valid_binary prec emax y = true ->
  valid_binary prec emax (SFadd prec emax x y) = true.
Proof.
  destruct x as [sx|sx| |sx mx ex], y as [sy|sy| |sy my ey]; cbn [SFadd]; intros Hx Hy;
    try done; try (by destruct sx, sy).
  apply binary_normalize_valid.
Qed.

Lemma SFsub_valid x y :
  valid_binary prec emax x = true -> valid_binary prec emax y = true ->
  valid_binary prec emax (SFsub prec emax x y) = true.
Proof.
  destruct x as [sx|sx| |sx mx ex], y as [sy|sy| |sy my ey]; cbn [SFsub]; intros Hx Hy;
    try done; try (by destruct sx, sy).
  apply binary_normalize_valid.
Qed.

(** On finite operands they are never NaN. *)
Lemma SFadd_finite_not_nan x y :
  SFis_finite x = true -> SFis_finite y = true ->
  SFis_nan (SFadd prec emax x y) = false.
Proof.
  destruct x as [sx|sx| |sx mx ex], y as [sy|sy| |sy my ey]; cbn [SFadd]; intros Hx Hy;
    try done; try (by destruct sx, sy).
  apply binary_normalize_not_nan.
Qed.

Lemma SFsub_finite_not_nan x y :
  SFis_finite x = true -> SFis_finite y = true ->
  SFis_nan (SFsub prec emax x y) = false.
Proof.
  destruct x as [sx|sx| |sx mx ex], y as [sy|sy| |sy my ey]; cbn [SFsub]; intros Hx Hy;
    try done; try (by destruct sx, sy).
  apply binary_normalize_not_nan.
Qed.

(** The sum and the difference of two finite numbers do not both
    overflow: one of them is a cancellation. *)
Lemma SFadd_SFsub_not_both_infinite x y :
  SFis_finite x = true -> SFis_finite y = true ->
  valid_binary prec emax x = true -> valid_binary prec emax y = true ->
  SFis_finite (SFadd prec emax x y) = true \/ SFis_finite (SFsub prec emax x y) = true.
Proof.
  destruct x as [sx|sx| |sx mx ex], y as [sy|sy| |sy my ey]; intros Hfx Hfy Hx Hy;
    try done; try (left; cbn [SFadd]; by destruct sx, sy); try (by left).
  cbn [valid_binary] in Hx, Hy.
  destruct (bounded_inv _ _ Hx) as (Hmx & Hex & _ & _).
  destruct (bounded_inv _ _ Hy) as (Hmy & Hey & _ & _).
  cbn [SFadd SFsub]. cbv zeta.
  set (ez := Z.min ex ey).
  destruct (shl_align_spec mx ex ez) as [_ Hx'].
  destruct (shl_align_spec my ey ez) as [_ Hy'].
  replace (Z.min ex ez) with ez in Hx' by lia.
  replace (Z.min ey ez) with ez in Hy' by lia.
  set (mx' := Zpos (fst (shl_align mx ex ez))) in *.
  set (my' := Zpos (fst (shl_align my ey ez))) in *.
  assert (Hbound : forall m e, Zpos m < 2 ^ prec -> ez <= e <= emax - prec ->
            Zpos m * 2 ^ (e - ez) <= (2 ^ prec - 1) * 2 ^ (emax - prec - ez)).
  { intros m e Hm He.
    assert (2 ^ (e - ez) <= 2 ^ (emax - prec - ez)) by (apply Z.pow_le_mono_r; lia).
    assert (0 < 2 ^ (e - ez)) by (apply Z.pow_pos_nonneg; lia).
    nia. }
  pose proof (Hbound mx ex Hmx ltac:(lia)) as Hbx. rewrite <- Hx' in Hbx.
  pose proof (Hbound my ey Hmy ltac:(lia)) as Hby. rewrite <- Hy' in Hby.
  assert (Hxp : 0 < mx') by done. assert (Hyp : 0 < my') by done.
  assert (Hez : ez <= emax - prec) by lia.
  destruct sx, sy; cbn [cond_Zopp].
  - right. apply binary_normalize_no_overflow; [done|lia].
  - left. apply binary_normalize_no_overflow; [done|lia].
  - left. apply binary_normalize_no_overflow; [done|lia].
  - right. apply binary_normalize_no_overflow; [done|lia].
Qed.

(** A quotient is NaN only for NaN operands, for two infinities or for
    two zeros; a finite quotient has at most [prec] digits. *)
Lemma SFdiv_shape x y :
  SFis_nan x = false -> SFis_nan y = false ->
  (SFis_finite x = true \/ SFis_finite y = true) ->
  (SFis_zero x = false \/ SFis_zero y = false) ->
  exists s,
    SFdiv prec emax x y = S754_zero s
    \/ SFdiv prec emax x y = S754_infinity s
    \/ exists m e,
         SFdiv prec emax x y = S754_finite s m e
         /\ Zdigits2 (Zpos m) <= prec /\ e <= emax - prec.
Proof.
  destruct x as [sx|sx| |sx mx ex], y as [sy|sy| |sy my ey];
    intros Hnx Hny Hfin Hz; try done;
    try (destruct Hfin; done); try (destruct Hz; done);
    try (exists (xorb sx sy); cbn [SFdiv]; auto; fail).
  exists (xorb sx sy). cbn [SFdiv]. unfold SFdiv_core_binary.
  set (e' := Z.min _ _). set (m' := match _ with Zpos _ => _ | _ => _ end).
  assert (Hm' : 0 <= m').
  { unfold m'. destruct (ex - ey - e'); try lia.
    rewrite Z.shiftl_mul_pow2 by lia.
    apply Z.mul_nonneg_nonneg; [lia|]. apply Z.pow_nonneg; lia. }
  pose proof (Z_div_mod m' (Zpos my) ltac:(lia)) as Hdiv.
  destruct (Z.div_eucl m' (Zpos my)) as [q r].
  assert (Hq : 0 <= q) by nia.
  apply binary_round_aux_shape. exact Hq.
Qed.

End Rounding.

(** ** Float64 instances *)

Lemma F64_prec_gt_0 : 0 < F64.prec.
Proof. reflexivity. Qed.

Lemma F64_prec_lt_emax : F64.prec < F64.emax.
Proof. reflexivity. Qed.

(** An integer of 64 bits converts to a finite positive double. *)
Lemma F64_of_int_pos n :
  0 < n < 2 ^ 63 -> exists m e, F64.of_int n = S754_finite false m e.
Proof.
  intros [Hpos Hlt]. destruct n as [|p|p]; try lia.
  unfold F64.of_int. cbn [binary_normalize].
  pose proof (binary_round_no_overflow F64.prec F64.emax F64_prec_gt_0 F64_prec_lt_emax
                false p 0) as Hfin.
  assert (Hbound : Zpos p < (2 ^ F64.prec - 1) * 2 ^ (F64.emax - F64.prec - 0)).
  { assert (2 ^ 63 <= (2 ^ F64.prec - 1) * 2 ^ (F64.emax - F64.prec - 0))
      by (vm_compute; discriminate).
    lia. }
  specialize (Hfin ltac:(unfold F64.emax, F64.prec; lia) Hbound).
  destruct (binary_round_spec F64.prec F64.emax F64_prec_gt_0 false p 0)
    as (m2 & Hhi & Hlo & [[Hz _]|(m3 & e3 & _ & _ & _ & _ & Hr)]).
  - (* the significand is not rounded to zero *)
    exfalso. cbv zeta in Hhi, Hlo.
    set (d := Zdigits2 (Zpos p)) in *.
    assert (Hd : 0 < d <= 63).
    { split; [apply Zdigits2_pos; lia|]. apply Zdigits2_le_iff; lia. }
    assert (He1 : SpecFloat.fexp F64.prec F64.emax (d + 0) = d - 53).
    { unfold SpecFloat.fexp, SpecFloat.emin, F64.prec, F64.emax. lia. }
    rewrite He1 in Hhi, Hlo.
    destruct (Z_le_gt_dec (d - 53) 0) as [Hle|Hgt].
    + specialize (Hhi Hle).
      assert (0 < 2 ^ (0 - (d - 53))) by (apply Z.pow_pos_nonneg; lia). nia.
    + assert (Hq : 0 < Zpos p / 2 ^ (d - 53 - 0)).
      { pose proof (Zdigits2_div_pow2 (Zpos p) (d - 53 - 0) ltac:(lia) ltac:(fold d; lia)) as Hdd.
        fold d in Hdd.
        destruct (Zpos p / 2 ^ (d - 53 - 0)) as [|q|q] eqn:Hqq; try lia.
        - cbn [Zdigits2] in Hdd. lia.
        - assert (0 <= Zpos p / 2 ^ (d - 53 - 0)).
          { apply Z.div_pos; [lia|]. apply Z.pow_pos_nonneg; lia. }
          lia. }
      destruct (Hlo ltac:(lia)); lia.
  - rewrite Hr in Hfin |- *. destruct (e3 <=? F64.emax - F64.prec); [eauto|discriminate].
Qed.

(** A finite double divided by itself is exactly 1.0. *)
Lemma F64_div_self m e :
  F64.div (S754_finite false m e) (S754_finite false m e)
  = S754_finite false 4503599627370496 (-52).
Proof.
  unfold F64.div. cbn [SFdiv xorb]. unfold SFdiv_core_binary.
  replace (Zdigits2 (Zpos m) + e - (Zdigits2 (Zpos m) + e)) with 0 by lia.
  replace (e - e) with 0 by lia.
  change (Z.min (SpecFloat.fexp F64.prec F64.emax 0) 0) with (-53).
  change (0 - -53) with 53. cbv iota.
  rewrite Z.shiftl_mul_pow2 by lia.
  rewrite (surjective_pairing (Z.div_eucl (Zpos m * 2 ^ 53) (Zpos m))).
  change (fst (Z.div_eucl (Zpos m * 2 ^ 53) (Zpos m))) with (Zpos m * 2 ^ 53 / Zpos m).
  change (snd (Z.div_eucl (Zpos m * 2 ^ 53) (Zpos m))) with ((Zpos m * 2 ^ 53) mod Zpos m).
  rewrite (Z.mul_comm (Zpos m)), Z.div_mul, Z.mod_mul by lia.
  assert (Hloc : new_location (Zpos m) 0 = loc_Exact).
  { unfold new_location. destruct (Z.even (Zpos m)); reflexivity. }
  rewrite Hloc. vm_compute. reflexivity.
Qed.

Lemma percent_zero n : 0 < n < 2 ^ 63 -> percent 0 n = S754_zero false.
Proof.
  intros Hn. destruct (F64_of_int_pos n Hn) as (m & e & Hm).
  unfold percent. rewrite Hm. reflexivity.
Qed.

Lemma percent_all n : 0 < n < 2 ^ 63 -> percent n n = F64.of_int 100.
Proof.
  intros Hn. destruct (F64_of_int_pos n Hn) as (m & e & Hm).
  unfold percent. rewrite Hm, F64_div_self. vm_compute. reflexivity.
Qed.

(** ** The error of one rounding *)

Section RoundingError.
Variables prec emax : Z.
Hypothesis prec_gt_0 : 0 < prec.
Hypothesis prec_lt_emax : prec < emax.
Local Abbreviation fexp := (SpecFloat.fexp prec emax).
Local Abbreviation emin := (SpecFloat.emin prec emax).

(** Rounding a significand of at least [prec] digits in the normal range
    gives a finite number of exactly [prec] digits, off by at most one
    unit in the last place: a relative error of at most [2^(1 - prec)]. *)
Lemma binary_round_aux_error s m e l :
  0 < m -> prec <= Zdigits2 m ->
  emin + prec <= Zdigits2 m + e -> Zdigits2 m + e < emax ->
  exists m3 e3,
    binary_round_aux prec emax s m e l = S754_finite s m3 e3
    /\ e <= e3
    /\ Zdigits2 (Zpos m3) = prec
    /\ Zdigits2 m + e <= prec + e3 <= Zdigits2 m + e + 1
    /\ 2 ^ (prec - 1) * Z.abs (Zpos m3 * 2 ^ (e3 - e) - m) <= m.
Proof.
  intros Hm Hd Hlo Hhi.
  set (d := Zdigits2 m) in *.
  assert (He1 : fexp (d + e) = d + e - prec) by (unfold SpecFloat.fexp; lia).
  destruct (binary_round_aux_aligned prec emax prec_gt_0 s m e l ltac:(lia)
              ltac:(fold d; lia)) as (m2 & Hcases & _ & Hres).
  fold d in Hcases, Hres. rewrite He1 in Hcases, Hres.
  replace (d + e - prec - e) with (d - prec) in Hcases by lia.
  set (k := d - prec) in *.
  assert (Hk : 0 <= k < d) by (unfold k; lia).
  assert (Hpk : 0 < 2 ^ k) by (apply Z.pow_pos_nonneg; lia).
  set (m1 := m / 2 ^ k) in *.
  assert (Hd1 : Zdigits2 m1 = prec).
  { unfold m1. rewrite Zdigits2_div_pow2 by (fold d; lia). fold d. lia. }
  assert (Hm1pos : 0 < m1).
  { destruct (Z.eq_dec m1 0) as [H0|]; [rewrite H0 in Hd1; cbn in Hd1; lia|].
    assert (0 <= m1) by (apply Z.div_pos; lia). lia. }
  assert (Hm1lo : m1 * 2 ^ k <= m).
  { unfold m1. rewrite Z.mul_comm. apply Z.mul_div_le. lia. }
  assert (Hm1hi : m < (m1 + 1) * 2 ^ k).
  { unfold m1. rewrite Z.mul_comm. replace (m / 2 ^ k + 1) with (Z.succ (m / 2 ^ k)) by lia.
    apply Z.mul_succ_div_gt. lia. }
  assert (Hmlo : 2 ^ (prec - 1) * 2 ^ k <= m).
  { rewrite <- Z.pow_add_r by lia. replace (prec - 1 + k) with (d - 1) by (unfold k; lia).
    apply Zdigits2_bounds. lia. }
  destruct Hres as [[H0 _]|(m3 & e3 & Hv & He13 & He3 & Hdig & Hr)]; [lia|].
  assert (Hd2 : prec <= Zdigits2 m2 <= prec + 1).
  { destruct Hcases as [->| ->]; [lia|].
    split.
    - rewrite <- Hd1. apply Zdigits2_mono; lia.
    - rewrite <- Hd1. apply Zdigits2_succ_le. lia. }
  assert (He3' : e3 = Zdigits2 m2 + (d + e - prec) - prec).
  { rewrite He3. unfold SpecFloat.fexp. lia. }
  exists m3, e3.
  split; [rewrite Hr; destruct (Z.leb_spec e3 (emax - prec)); [done|lia]|].
  split; [lia|]. split; [lia|]. split; [lia|].
  assert (Hval : Zpos m3 * 2 ^ (e3 - e) = m2 * 2 ^ k).
  { rewrite <- Hv. replace (e3 - e) with (e3 - (d + e - prec) + k) by (unfold k; lia).
    rewrite Z.pow_add_r by lia. lia. }
  rewrite Hval.
  assert (Habs : Z.abs (m2 * 2 ^ k - m) <= 2 ^ k).
  { destruct Hcases as [->| ->]; lia. }
  assert (0 < 2 ^ (prec - 1)) by (apply Z.pow_pos_nonneg; lia).
  nia.
Qed.

End RoundingError.

(** ** Values of floats as rationals *)

Lemma pow2_pos e : (0 < 2 ^ e)%Q.
Proof. by apply Qpower_0_lt. Qed.

Lemma pow2_add a b : (2 ^ (a + b) == 2 ^ a * 2 ^ b)%Q.
Proof. by apply Qpower_plus. Qed.

Lemma pow2_inject k : 0 <= k -> (inject_Z (2 ^ k) == 2 ^ k)%Q.
Proof. intros Hk. by rewrite Zpower_Qpower. Qed.

Lemma F2Q_pos m e : 0 < m -> (0 < F2Q m e)%Q.
Proof.
  intros Hm. unfold F2Q. apply Qmult_lt_0_compat; [|apply pow2_pos].
  change 0%Q with (inject_Z 0). by rewrite <- Zlt_Qlt.
Qed.

Lemma F2Q_le a b e : a <= b -> (F2Q a e <= F2Q b e)%Q.
Proof.
  intros Hab. unfold F2Q. apply Qmult_le_compat_r;
    [by rewrite <- Zle_Qle | apply Qlt_le_weak, pow2_pos].
Qed.

Lemma F2Q_lt a b e : a < b -> (F2Q a e < F2Q b e)%Q.
Proof.
  intros Hab. unfold F2Q. apply Qmult_lt_compat_r;
    [apply pow2_pos | by rewrite <- Zlt_Qlt].
Qed.

Lemma F2Q_mul a e b f : (F2Q a e * F2Q b f == F2Q (a * b) (e + f))%Q.
Proof. unfold F2Q. rewrite inject_Z_mult, pow2_add. ring. Qed.

Lemma F2Q_add a b e : (F2Q a e + F2Q b e == F2Q (a + b) e)%Q.
Proof. unfold F2Q. rewrite inject_Z_plus. ring. Qed.

Lemma F2Q_shift m e k : 0 <= k -> (F2Q (m * 2 ^ k) e == F2Q m (e + k))%Q.
Proof.
  intros Hk. unfold F2Q.
  rewrite inject_Z_mult, pow2_inject, pow2_add by done. ring.
Qed.

Lemma F2Q_0 m : (F2Q m 0 == inject_Z m)%Q.
Proof. unfold F2Q. change (2 ^ 0)%Q with 1%Q. ring. Qed.

(** [SF2Q] gives the value of every finite float. *)
Lemma SF2Q_SFval x :
  SFis_finite x = true -> exists q, SF2Q x = Some q /\ (q == SFval x)%Q.
Proof.
  destruct x as [s|s| |s m [|e|e]]; try discriminate; intros _;
    cbn [SF2Q SFval]; eexists; (split; [reflexivity|]).
  - reflexivity.
  - unfold F2Q. change (2 ^ 0)%Q with 1%Q. rewrite Z.mul_1_r.
    change (inject_Z (cond_Zopp s (Z.pos m)) == inject_Z (cond_Zopp s (Z.pos m)) * 1)%Q. ring.
  - unfold F2Q.
    change (inject_Z (cond_Zopp s (Z.pos m) * 2 ^ Z.pos e)
            == inject_Z (cond_Zopp s (Z.pos m)) * 2 ^ Z.pos e)%Q.
    rewrite inject_Z_mult, pow2_inject by lia. reflexivity.
  - unfold F2Q. rewrite Qmake_Qdiv. unfold Qdiv.
    change (Z.neg e) with (- Z.pos e). rewrite Qpower_opp.
    rewrite <- pow2_inject by lia. rewrite Pos2Z.inj_pow. reflexivity.
Qed.

(** ** Relative errors *)

Lemma approx_refl r t : (0 <= r)%Q -> (0 <= t)%Q -> approx r t t.
Proof. unfold approx. intros. nra. Qed.

Lemma approx_weaken r r' x t :
  (r <= r')%Q -> (0 <= t)%Q -> approx r x t -> approx r' x t.
Proof. unfold approx. intros. nra. Qed.

Lemma approx_eq r x x' t t' :
  (x == x')%Q -> (t == t')%Q -> approx r x t -> approx r x' t'.
Proof. unfold approx. intros -> ->. done. Qed.

Lemma approx_nonneg r x t : (r <= 1)%Q -> (0 <= t)%Q -> approx r x t -> (0 <= x)%Q.
Proof. unfold approx. intros. nra. Qed.

Lemma approx_trans r1 r2 x y t :
  (0 <= r1 <= 1)%Q -> (0 <= r2 <= 1)%Q -> (0 <= t)%Q ->
  approx r1 x y -> approx r2 y t -> approx (r1 + r2 + r1 * r2) x t.
Proof.
  unfold approx. intros [? ?] [? ?] ? [? ?] [? ?].
  assert (0 <= y)%Q by nra.
  assert ((1 - r1) * ((1 - r2) * t) <= (1 - r1) * y)%Q by nra.
  assert ((1 + r1) * y <= (1 + r1) * ((1 + r2) * t))%Q by nra.
  split; nra.
Qed.

(** ** Errors of the double operations *)

Lemma F64_round_aux_approx s m e l :
  0 < m -> 53 <= Zdigits2 m -> -1021 <= Zdigits2 m + e < 1024 ->
  exists m3 e3,
    binary_round_aux F64.prec F64.emax s m e l = S754_finite s m3 e3
    /\ Zdigits2 (Zpos m3) = 53
    /\ Zdigits2 m + e <= 53 + e3 <= Zdigits2 m + e + 1
    /\ approx u64 (F2Q (Zpos m3) e3) (F2Q m e).
Proof.
  intros Hm Hd Hr.
  destruct (binary_round_aux_error F64.prec F64.emax F64_prec_gt_0 s m e l Hm)
    as (m3 & e3 & Hres & He & Hd3 & Hmag & Herr).
  { exact Hd. }
  { unfold SpecFloat.emin, F64.prec, F64.emax. lia. }
  { unfold F64.emax. lia. }
  exists m3, e3. split; [exact Hres|]. split; [exact Hd3|].
  split; [unfold F64.prec in Hmag; lia|].
  change (2 ^ (F64.prec - 1)) with 4503599627370496 in Herr.
  set (k := e3 - e) in *.
  set (D := Zpos m3 * 2 ^ k - m) in *.
  assert (Hx : (F2Q (Zpos m3) e3 == F2Q m e + F2Q D e)%Q).
  { rewrite F2Q_add. replace (m + D) with (Zpos m3 * 2 ^ k) by (unfold D; lia).
    rewrite F2Q_shift by (unfold k; lia). replace (e + k) with e3 by (unfold k; lia).
    reflexivity. }
  assert (H1 : (F2Q (4503599627370496 * D) e <= F2Q m e)%Q) by (apply F2Q_le; lia).
  assert (H2 : (F2Q (- m) e <= F2Q (4503599627370496 * D) e)%Q) by (apply F2Q_le; lia).
  unfold approx, u64. rewrite Hx. unfold F2Q in *.
  rewrite inject_Z_mult in H1, H2. rewrite inject_Z_opp in H2.
  set (d := (inject_Z D * 2 ^ e)%Q) in *.
  set (t := (inject_Z m * 2 ^ e)%Q) in *.
  change (inject_Z 4503599627370496) with (4503599627370496 # 1) in H1, H2.
  assert (H1' : (4503599627370496 * d <= t)%Q) by (unfold d; lra).
  assert (H2' : (- t <= 4503599627370496 * d)%Q) by (unfold d, t; lra).
  split; lra.
Qed.

(** A positive integer below [2^63] converts to a normal double, with
    relative error at most [u64]. *)
Lemma F64_of_int_approx n :
  0 < n < 2 ^ 63 ->
  normal64 1 64 (F64.of_int n) /\ approx u64 (SFval (F64.of_int n)) (inject_Z n).
Proof.
  intros [Hpos Hlt]. destruct n as [|p|p]; try lia.
  unfold F64.of_int. cbn [binary_normalize]. unfold binary_round.
  change (Zpos (digits2_pos p)) with (Zdigits2 (Zpos p)).
  set (d := Zdigits2 (Zpos p)).
  assert (Hd : 0 < d <= 63).
  { split; [apply Zdigits2_pos; lia|]. apply Zdigits2_le_iff; lia. }
  assert (He1 : SpecFloat.fexp F64.prec F64.emax (d + 0) = d - 53).
  { unfold SpecFloat.fexp, SpecFloat.emin, F64.prec, F64.emax. lia. }
  rewrite He1.
  destruct (shl_align_spec p 0 (d - 53)) as [Hez Hmz].
  destruct (shl_align p 0 (d - 53)) as [mz ez]. cbn [fst snd] in Hez, Hmz.
  assert (Hez0 : ez <= 0) by lia.
  assert (Hdz : Zdigits2 (Zpos mz) = d - ez).
  { rewrite Hmz, Zdigits2_mul_pow2 by lia. fold d. lia. }
  destruct (F64_round_aux_approx false (Zpos mz) ez loc_Exact ltac:(lia) ltac:(lia)
              ltac:(lia)) as (m3 & e3 & -> & Hd3 & Hmag & Happ).
  split.
  - exists m3, e3. split; [done|]. split; [done|]. lia.
  - cbn [SFval cond_Zopp]. eapply approx_eq; [reflexivity| |exact Happ].
    rewrite Hmz, F2Q_shift by lia. rewrite <- Hez.
    replace (ez + (0 - ez)) with 0 by lia. apply F2Q_0.
Qed.

Lemma F64_of_int_100 : F64.of_int 100 = S754_finite false 7036874417766400 (-46).
Proof. vm_compute. reflexivity. Qed.

Lemma F64_of_int_100_normal : normal64 7 7 (F64.of_int 100).
Proof.
  rewrite F64_of_int_100. exists 7036874417766400%positive, (-46).
  split; [done|]. split; [vm_compute; reflexivity|lia].
Qed.

Lemma F64_of_int_100_val : (SFval (F64.of_int 100) == 100)%Q.
Proof. rewrite F64_of_int_100. vm_compute. reflexivity. Qed.

Lemma normal64_val lo hi x : normal64 lo hi x -> (0 < SFval x)%Q.
Proof. intros (m & e & -> & _). cbn [SFval cond_Zopp]. by apply F2Q_pos. Qed.

Lemma normal64_finite lo hi x : normal64 lo hi x -> SFis_finite x = true.
Proof. by intros (m & e & -> & _). Qed.

Lemma F64_mul_approx lo1 hi1 lo2 hi2 x y :
  normal64 lo1 hi1 x -> normal64 lo2 hi2 y ->
  -1020 <= lo1 + lo2 -> hi1 + hi2 < 1024 ->
  normal64 (lo1 + lo2 - 1) (hi1 + hi2 + 1) (F64.mul x y)
  /\ approx u64 (SFval (F64.mul x y)) (SFval x * SFval y).
Proof.
  intros (mx & ex & -> & Hdx & Hex) (my & ey & -> & Hdy & Hey) Hlo Hhi.
  unfold F64.mul. cbn [SFmul xorb].
  rewrite Pos2Z.inj_mul.
  pose proof (Zdigits2_bounds (Zpos mx) ltac:(lia)) as Hbx. rewrite Hdx in Hbx.
  pose proof (Zdigits2_bounds (Zpos my) ltac:(lia)) as Hby. rewrite Hdy in Hby.
  change (2 ^ (53 - 1)) with 4503599627370496 in Hbx, Hby.
  change (2 ^ 53) with 9007199254740992 in Hbx, Hby.
  set (m := Zpos mx * Zpos my).
  assert (Hm : 0 < m) by (unfold m; lia).
  assert (Hdm : 105 <= Zdigits2 m <= 106).
  { split.
    - destruct (Z_lt_le_dec (Zdigits2 m) 105) as [Hlt|]; [|lia]. exfalso.
      assert (Hle : Zdigits2 m <= 104) by lia.
      apply (Zdigits2_le_iff m 104 Hm ltac:(lia)) in Hle.
      assert (2 ^ 104 = 4503599627370496 * 4503599627370496) by (vm_compute; reflexivity).
      unfold m in Hle. nia.
    - apply (Zdigits2_le_iff m 106 Hm ltac:(lia)).
      assert (2 ^ 106 = 9007199254740992 * 9007199254740992) by (vm_compute; reflexivity).
      unfold m. nia. }
  destruct (F64_round_aux_approx false m (ex + ey) loc_Exact Hm ltac:(lia) ltac:(lia))
    as (m3 & e3 & -> & Hd3 & Hmag & Happ).
  split.
  - exists m3, e3. split; [done|]. split; [done|]. lia.
  - cbn [SFval cond_Zopp]. eapply approx_eq; [reflexivity| |exact Happ].
    unfold m. by rewrite F2Q_mul.
Qed.

Lemma F64_div_approx lo1 hi1 lo2 hi2 x y :
  normal64 lo1 hi1 x -> normal64 lo2 hi2 y ->
  -1021 <= lo1 - hi2 -> hi1 - lo2 + 1 < 1024 ->
  normal64 (lo1 - hi2) (hi1 - lo2 + 2) (F64.div x y)
  /\ approx (2 * u64) (SFval (F64.div x y)) (SFval x / SFval y).
Proof.
  intros (mx & ex & -> & Hdx & Hex) (my & ey & -> & Hdy & Hey) Hlo Hhi.
  unfold F64.div. cbn [SFdiv xorb]. unfold SFdiv_core_binary.
  rewrite Hdx, Hdy.
  assert (He' : Z.min (SpecFloat.fexp F64.prec F64.emax (53 + ex - (53 + ey))) (ex - ey)
                = ex - ey - 53).
  { unfold SpecFloat.fexp, SpecFloat.emin, F64.prec, F64.emax. lia. }
  rewrite He'. replace (ex - ey - (ex - ey - 53)) with 53 by lia. cbv iota.
  rewrite Z.shiftl_mul_pow2 by lia.
  change (2 ^ 53) with 9007199254740992.
  pose proof (Zdigits2_bounds (Zpos mx) ltac:(lia)) as Hbx. rewrite Hdx in Hbx.
  pose proof (Zdigits2_bounds (Zpos my) ltac:(lia)) as Hby. rewrite Hdy in Hby.
  change (2 ^ (53 - 1)) with 4503599627370496 in Hbx, Hby.
  change (2 ^ 53) with 9007199254740992 in Hbx, Hby.
  pose proof (Z_div_mod (Zpos mx * 9007199254740992) (Zpos my) ltac:(lia)) as Hdiv.
  destruct (Z.div_eucl (Zpos mx * 9007199254740992) (Zpos my)) as [q r].
  destruct Hdiv as [Hqr Hr].
  assert (Hqlo : 4503599627370496 <= q) by nia.
  assert (Hqhi : q < 18014398509481984) by nia.
  assert (Hq : 0 < q) by lia.
  assert (Hdq : 53 <= Zdigits2 q <= 54).
  { split.
    - destruct (Z_lt_le_dec (Zdigits2 q) 53) as [Hlt|]; [|lia]. exfalso.
      assert (Hle : Zdigits2 q <= 52) by lia.
      apply (Zdigits2_le_iff q 52 Hq ltac:(lia)) in Hle.
      change (2 ^ 52) with 4503599627370496 in Hle. lia.
    - apply (Zdigits2_le_iff q 54 Hq ltac:(lia)).
      change (2 ^ 54) with 18014398509481984. lia. }
  destruct (F64_round_aux_approx false q (ex - ey - 53)
              (new_location (Zpos my) r) Hq ltac:(lia) ltac:(lia))
    as (m3 & e3 & -> & Hd3 & Hmag & Happ).
  split.
  - exists m3, e3. split; [done|]. split; [done|]. lia.
  - cbn [SFval cond_Zopp].
    set (L := F2Q q (ex - ey - 53)) in *.
    set (X := F2Q (Zpos m3) e3) in *.
    assert (Hy : (0 < F2Q (Zpos my) ey)%Q) by (by apply F2Q_pos).
    assert (HL : (0 < L)%Q) by (by apply F2Q_pos).
    set (T := (F2Q (Zpos mx) ex / F2Q (Zpos my) ey)%Q).
    assert (Hnum : (F2Q (Zpos mx * 9007199254740992) (ex - 53) == F2Q (Zpos mx) ex)%Q).
    { change 9007199254740992 with (2 ^ 53). rewrite F2Q_shift by lia.
      replace (ex - 53 + 53) with ex by lia. reflexivity. }
    assert (HLT : (L <= T)%Q).
    { unfold T. apply Qle_shift_div_l; [done|].
      unfold L. rewrite F2Q_mul, <- Hnum.
      replace (ex - ey - 53 + ey) with (ex - 53) by lia. apply F2Q_le. lia. }
    assert (HTL : (T <= L + F2Q 1 (ex - ey - 53))%Q).
    { unfold T. apply Qle_shift_div_r; [done|].
      unfold L. rewrite F2Q_add, F2Q_mul, <- Hnum.
      replace (ex - ey - 53 + ey) with (ex - 53) by lia. apply F2Q_le. lia. }
    assert (Hulp : (4503599627370496 * F2Q 1 (ex - ey - 53) <= L)%Q).
    { unfold L.
      assert (H := F2Q_le 4503599627370496 q (ex - ey - 53) Hqlo).
      unfold F2Q in H |- *.
      change (inject_Z 4503599627370496) with (4503599627370496 # 1) in H.
      change (inject_Z 1) with 1%Q. lra. }
    destruct Happ as [Ha1 Ha2]. unfold approx, u64 in *. fold L in Ha1, Ha2.
    split; lra.
Qed.

(** [div_half_even n d] is an integer nearest to [n / d]. *)
Lemma div_half_even_spec n d :
  0 <= n -> 0 < d ->
  0 <= div_half_even n d
  /\ (2 * div_half_even n d - 1) * d <= 2 * n <= (2 * div_half_even n d + 1) * d.
Proof.
  intros Hn Hd. unfold div_half_even.
  pose proof (Z.div_mod n d ltac:(lia)) as Hdm.
  pose proof (Z.mod_pos_bound n d Hd) as Hr.
  assert (Hq : 0 <= n / d) by (apply Z.div_pos; lia).
  set (q := n / d) in *. set (r := n mod d) in *.
  destruct (Z.compare_spec (2 * r) d) as [He|Hl|Hg].
  - destruct (Z.even q); split; nia.
  - split; nia.
  - split; nia.
Qed.

(** [rint] of a positive normal double: the result is the conversion of
    an integer [K] at most one half away from the argument. *)
Lemma F64_rint_approx lo hi y :
  normal64 lo hi y -> hi <= 1000 ->
  exists K : Z,
    0 <= K
    /\ (inject_Z K - (1 # 2) <= SFval y <= inject_Z K + (1 # 2))%Q
    /\ (K < 2 ^ 52 -> F64.rint y = F64.of_int K)
    /\ ((K = 0 /\ F64.rint y = S754_zero false)
        \/ (0 < K /\ normal64 1 (Z.max 64 hi) (F64.rint y)
            /\ approx u64 (SFval (F64.rint y)) (inject_Z K))).
Proof.
  intros (m & e & -> & Hd & He) Hhi.
  pose proof (Zdigits2_bounds (Zpos m) ltac:(lia)) as Hbm. rewrite Hd in Hbm.
  change (53 - 1) with 52 in Hbm.
  destruct e as [|e|p].
  - exists (Zpos m). split; [lia|]. cbn [SFval cond_Zopp F64.rint].
    pose proof (F2Q_0 (Zpos m)) as H0.
    split; [split; lra|]. split; [lia|]. right. split; [lia|]. split.
    + exists m, 0. split; [done|]. split; [done|]. lia.
    + eapply approx_eq; [reflexivity|exact H0|].
      apply approx_refl; [done|]. apply Qlt_le_weak, F2Q_pos. lia.
  - exists (Zpos m * 2 ^ Zpos e).
    assert (Hp : 0 < 2 ^ Zpos e) by (apply Z.pow_pos_nonneg; lia).
    split; [lia|]. cbn [SFval cond_Zopp F64.rint].
    assert (H0 : (F2Q (Zpos m) (Zpos e) == inject_Z (Zpos m * 2 ^ Zpos e))%Q).
    { rewrite <- F2Q_0, F2Q_shift by lia. reflexivity. }
    split; [split; lra|]. split; [nia|]. right. split; [lia|]. split.
    + exists m, (Zpos e). split; [done|]. split; [done|]. lia.
    + eapply approx_eq; [reflexivity|exact H0|].
      apply approx_refl; [done|]. apply Qlt_le_weak, F2Q_pos. lia.
  - assert (Hp : 0 < 2 ^ Zpos p) by (apply Z.pow_pos_nonneg; lia).
    destruct (div_half_even_spec (Zpos m) (2 ^ Zpos p) ltac:(lia) Hp) as (HK & Hlo2 & Hhi2).
    exists (div_half_even (Zpos m) (2 ^ Zpos p)).
    set (K := div_half_even (Zpos m) (2 ^ Zpos p)) in *.
    split; [done|]. split.
    + cbn [SFval cond_Zopp].
      assert (H1 : (F2Q ((2 * K + -1) * 2 ^ Zpos p) (Zneg p) <= F2Q (2 * Zpos m) (Zneg p))%Q)
        by (apply F2Q_le; lia).
      assert (H2 : (F2Q (2 * Zpos m) (Zneg p) <= F2Q ((2 * K + 1) * 2 ^ Zpos p) (Zneg p))%Q)
        by (by apply F2Q_le).
      rewrite F2Q_shift in H1, H2 by lia.
      replace (Zneg p + Zpos p) with 0 in H1, H2 by lia.
      rewrite F2Q_0 in H1, H2.
      assert (H3 : (F2Q (2 * Zpos m) (Zneg p) == 2 * F2Q (Zpos m) (Zneg p))%Q).
      { unfold F2Q. rewrite inject_Z_mult. change (inject_Z 2) with 2%Q. ring. }
      rewrite H3 in H1, H2.
      rewrite inject_Z_plus, inject_Z_mult in H1, H2.
      change (inject_Z 2) with 2%Q in H1, H2. change (inject_Z 1) with 1%Q in H2.
      change (inject_Z (-1)) with (-1 # 1)%Q in H1.
      split; lra.
    + split.
      { intros _. cbn [F64.rint]. fold K. by destruct K as [|k|k]; [..|lia]. }
      cbn [F64.rint]. fold K.
      destruct K as [|k|k] eqn:HKe; [by left| |lia].
      right. split; [lia|].
      assert (Hk63 : 0 < Zpos k < 2 ^ 63).
      { split; [lia|].
        pose proof (Zdigits2_bounds (Zpos m) ltac:(lia)) as Hb. rewrite Hd in Hb.
        assert (2 <= 2 ^ Zpos p).
        { change 2 with (2 ^ 1) at 1. apply Z.pow_le_mono_r; lia. }
        assert (2 ^ 53 < 2 ^ 63) by (vm_compute; reflexivity).
        nia. }
      destruct (F64_of_int_approx (Zpos k) Hk63) as [Hn Ha].
      change (F64.of_int (Zpos k)) with (binary_round F64.prec F64.emax false k 0) in Hn, Ha.
      split; [|exact Ha].
      destruct Hn as (m3 & e3 & Hr & Hd3 & Hm3). exists m3, e3. split; [done|].
      split; [done|]. lia.
Qed.

(** Zero divided by a positive double. *)
Lemma F64_div_zero lo hi y : normal64 lo hi y -> F64.div (S754_zero false) y = S754_zero false.
Proof. by intros (m & e & -> & _). Qed.

(** ** Composition of relative errors *)

Lemma approx_scale r x t k : (0 <= k)%Q -> approx r x t -> approx r (x * k) (t * k).
Proof. unfold approx. intros Hk [H1 H2]. split; nra. Qed.

Lemma approx_div_const r x t k : (0 < k)%Q -> approx r x t -> approx r (x / k) (t / k).
Proof.
  intros Hk. unfold Qdiv. apply approx_scale.
  apply Qlt_le_weak, Qinv_lt_0_compat, Hk.
Qed.

Lemma approx_trans_le r1 r2 r x y t :
  (0 <= r1 <= 1)%Q -> (0 <= r2 <= 1)%Q -> (r1 + r2 + r1 * r2 <= r)%Q -> (0 <= t)%Q ->
  approx r1 x y -> approx r2 y t -> approx r x t.
Proof.
  intros H1 H2 Hr Ht Hxy Hyt.
  apply (approx_weaken (r1 + r2 + r1 * r2)); [done|done|].
  by apply (approx_trans r1 r2 x y t).
Qed.

(** The quotient of two numbers known up to [u64]. *)
Lemma approx_div_u64 a b c n :
  (0 <= c)%Q -> (0 < n)%Q -> approx u64 a c -> approx u64 b n ->
  approx (3 * u64) (a / b) (c / n).
Proof.
  unfold approx, u64. intros Hc Hn [Ha1 Ha2] [Hb1 Hb2].
  assert (Hb : (0 < b)%Q) by lra.
  set (s := (c / n)%Q).
  assert (Hs : (0 <= s)%Q).
  { unfold s. apply Qle_shift_div_l; [done|]. lra. }
  assert (Hsn : (s * n == c)%Q).
  { unfold s. field. intros H0. rewrite H0 in Hn. by apply Qlt_irrefl in Hn. }
  assert (Hv1 : (s * ((1 - (1 # 4503599627370496)) * n) <= s * b)%Q) by nra.
  assert (Hv2 : (s * b <= s * ((1 + (1 # 4503599627370496)) * n))%Q) by nra.
  split.
  - apply Qle_shift_div_l; [done|]. nra.
  - apply Qle_shift_div_r; [done|]. nra.
Qed.

Lemma inject_Z_pos n : 0 < n -> (0 < inject_Z n)%Q.
Proof. intros. change 0%Q with (inject_Z 0). by rewrite <- Zlt_Qlt. Qed.

Lemma inject_Z_nonneg n : 0 <= n -> (0 <= inject_Z n)%Q.
Proof. intros. change 0%Q with (inject_Z 0). by rewrite <- Zle_Qle. Qed.

(** ** The reported percentage *)

(** [percent c N] is, up to the representation error of a double, a
    whole number [K] of hundredths, and [K] is within 1/2 (and the
    accumulated rounding error, far below 1/16) of [10000 * c / N]. *)
Lemma percent_error c N :
  0 <= c <= N -> 0 < N < 2 ^ 63 ->
  exists (K : Z) (q : Q),
    SF2Q (percent c N) = Some q
    /\ percent c N = F64.div (F64.of_int K) (F64.of_int 100)
    /\ 0 <= K <= 10000
    /\ (inject_Z K - (1 # 2) - (1 # 10000000000)
        <= 10000 * (inject_Z c / inject_Z N)
        <= inject_Z K + (1 # 2) + (1 # 10000000000))%Q
    /\ (inject_Z K / 100 - (1 # 10000000000000) <= q
        <= inject_Z K / 100 + (1 # 10000000000000))%Q
    /\ (0 <= q <= 100)%Q.
Proof.
  intros Hc HN.
  assert (HNq : (0 < inject_Z N)%Q) by (apply inject_Z_pos; lia).
  destruct (Z.eq_dec c 0) as [->|Hc0].
  { exists 0, 0%Q. rewrite percent_zero by done. split; [done|].
    split; [reflexivity|]. split; [lia|].
    change (inject_Z 0) with 0%Q. unfold Qdiv. split; [|split; [lra|lra]].
    assert (H0 : (10000 * (0 * / inject_Z N) == 0)%Q) by ring.
    rewrite H0. lra. }
  assert (Hcpos : 0 < c < 2 ^ 63) by lia.
  destruct (F64_of_int_approx c Hcpos) as [Hna Haa].
  destruct (F64_of_int_approx N HN) as [Hnb Hab].
  set (a := F64.of_int c) in *. set (b := F64.of_int N) in *.
  destruct (F64_div_approx 1 64 1 64 a b Hna Hnb ltac:(lia) ltac:(lia)) as [Hnq Haq].
  set (qv := F64.div a b) in *.
  pose proof F64_of_int_100_normal as Hnh. pose proof F64_of_int_100_val as Hvh.
  set (h := F64.of_int 100) in *.
  destruct (F64_mul_approx _ _ 7 7 qv h Hnq Hnh ltac:(lia) ltac:(lia)) as [Hnx Hax].
  set (x := F64.mul qv h) in *.
  destruct (F64_mul_approx _ _ 7 7 x h Hnx Hnh ltac:(lia) ltac:(lia)) as [Hny Hay].
  set (y := F64.mul x h) in *.
  destruct (F64_rint_approx _ _ y Hny ltac:(lia)) as (K & HK0 & HKy & HKi & HKr).
  assert (Hp : percent c N = F64.div (F64.rint y) h) by reflexivity.
  (* the value before [rint] *)
  set (t := (inject_Z c / inject_Z N)%Q).
  assert (Ht0 : (0 <= t)%Q).
  { unfold t. apply Qle_shift_div_l; [done|].
    assert (0 <= inject_Z c)%Q by (apply inject_Z_nonneg; lia). lra. }
  assert (Ht1 : (t <= 1)%Q).
  { unfold t. apply Qle_shift_div_r; [done|].
    assert (inject_Z c <= inject_Z N)%Q by (rewrite <- Zle_Qle; lia). lra. }
  assert (Hab3 : approx (3 * u64) (SFval a / SFval b) t).
  { apply approx_div_u64; [apply inject_Z_nonneg; lia|done|done|done]. }
  assert (Hq6 : approx (6 * u64) (SFval qv) t).
  { apply (approx_trans_le (2 * u64) (3 * u64) _ _ (SFval a / SFval b));
      try done; unfold u64; lra. }
  assert (Hx8 : approx (8 * u64) (SFval x) (t * 100)).
  { apply (approx_trans_le u64 (6 * u64) _ _ (SFval qv * 100));
      [unfold u64; lra|unfold u64; lra|unfold u64; lra|lra| |].
    - eapply approx_eq; [reflexivity| |exact Hax]. by rewrite Hvh.
    - apply approx_scale; [lra|done]. }
  assert (Hy10 : approx (10 * u64) (SFval y) (t * 100 * 100)).
  { apply (approx_trans_le u64 (8 * u64) _ _ (SFval x * 100));
      [unfold u64; lra|unfold u64; lra|unfold u64; lra|lra| |].
    - eapply approx_eq; [reflexivity| |exact Hay]. by rewrite Hvh.
    - apply approx_scale; [lra|done]. }
  assert (HY : (10000 * t - (1 # 10000000000) <= SFval y
                <= 10000 * t + (1 # 10000000000))%Q).
  { destruct Hy10 as [H1 H2]. unfold u64 in H1, H2. split; lra. }
  assert (HKq : (inject_Z K - (1 # 2) - (1 # 10000000000) <= 10000 * t
                 <= inject_Z K + (1 # 2) + (1 # 10000000000))%Q)
    by (split; lra).
  assert (HK1 : K <= 10000).
  { assert (Hlt : (inject_Z K < inject_Z 10001)%Q).
    { change (inject_Z 10001) with 10001%Q. lra. }
    rewrite <- Zlt_Qlt in Hlt. lia. }
  assert (HKq100 : (0 <= inject_Z K / 100 <= 100)%Q).
  { assert (0 <= inject_Z K)%Q by (by apply inject_Z_nonneg).
    assert (inject_Z K <= inject_Z 10000)%Q by (by rewrite <- Zle_Qle).
    change (inject_Z 10000) with 10000%Q in *.
    unfold Qdiv. change (/ 100)%Q with (1 # 100)%Q. split; lra. }
  assert (Hexact : percent c N = F64.div (F64.of_int K) h).
  { rewrite Hp, HKi; [reflexivity|].
    assert (10000 < 2 ^ 52) by (vm_compute; reflexivity). lia. }
  destruct HKr as [[-> Hr0]|(HKpos & Hnr & Har)].
  - exists 0, 0%Q. split; [rewrite Hp, Hr0, (F64_div_zero 7 7 h Hnh); done|].
    split; [exact Hexact|]. split; [lia|]. split; [exact HKq|].
    assert (H0 : (inject_Z 0 / 100 == 0)%Q) by reflexivity.
    rewrite H0. split; lra.
  - destruct (F64_div_approx _ _ 7 7 (F64.rint y) h Hnr Hnh ltac:(lia) ltac:(lia))
      as [Hnp Hap].
    rewrite <- Hp in Hnp, Hap.
    destruct (SF2Q_SFval (percent c N) (normal64_finite _ _ _ Hnp)) as (q & Hq & Hqv).
    exists K, q. split; [exact Hq|]. split; [exact Hexact|].
    split; [lia|]. split; [exact HKq|].
    assert (Hp4 : approx (4 * u64) (SFval (percent c N)) (inject_Z K / 100)).
    { apply (approx_trans_le (2 * u64) u64 _ _ (SFval (F64.rint y) / 100));
        [unfold u64; lra|unfold u64; lra|unfold u64; lra|lra| |].
      - eapply approx_eq; [reflexivity| |exact Hap]. by rewrite Hvh.
      - apply approx_div_const; [lra|done]. }
    destruct Hp4 as [H1 H2]. unfold u64 in H1, H2.
    split; [rewrite Hqv; split; lra|].
    split; [rewrite Hqv; lra|].
    destruct (Z.eq_dec K 10000) as [HKe|HKne].
    + rewrite Hexact, HKe in Hq. vm_compute in Hq. injection Hq as <-.
      vm_compute. discriminate.
    + assert (HK9 : (inject_Z K <= inject_Z 9999)%Q) by (rewrite <- Zle_Qle; lia).
      change (inject_Z 9999) with 9999%Q in HK9.
      unfold Qdiv in H2. change (/ 100)%Q with (1 # 100)%Q in H2.
      rewrite Hqv. lra.
Qed.

(** ** Float32 instances *)

Lemma F32_prec_gt_0 : 0 < F32.prec.
Proof. done. Qed.

Lemma F32_prec_lt_emax : F32.prec < F32.emax.
Proof. done. Qed.

Lemma F32_add_valid x y : F32.valid x -> F32.valid y -> F32.valid (F32.add x y).
Proof. exact (SFadd_valid F32.prec F32.emax F32_prec_gt_0 x y). Qed.

Lemma F32_sub_valid x y : F32.valid x -> F32.valid y -> F32.valid (F32.sub x y).
Proof. exact (SFsub_valid F32.prec F32.emax F32_prec_gt_0 x y). Qed.

Lemma clip_min_eq : clip_min = S754_finite true 8388608 (-23).
Proof. reflexivity. Qed.

Lemma clip_max_eq : clip_max = S754_finite false 8388608 (-23).
Proof. reflexivity. Qed.

Lemma epsilon_eq : epsilon = S754_finite false 8796093 (-43).
Proof. reflexivity. Qed.

Lemma compare_cont_Z a b : PosDef.Pos.compare_cont Eq a b = (Zpos a ?= Zpos b).
Proof. reflexivity. Qed.

Lemma in_unit_interval_small s m p :
  Zpos m <= 2 ^ Zpos p -> in_unit_interval (S754_finite s m (Zneg p)).
Proof.
  intros Hm. eexists. split; [reflexivity|].
  unfold Qle. cbn [Qnum Qden]. rewrite Pos2Z.inj_pow.
  destruct s; cbn [cond_Zopp]; lia.
Qed.

Lemma in_unit_interval_zero s : in_unit_interval (S754_zero s).
Proof. exists 0%Q. split; [done|]. split; by vm_compute. Qed.

Lemma in_unit_interval_minus_one : in_unit_interval (S754_finite true 8388608 (-23)).
Proof. apply in_unit_interval_small. by vm_compute. Qed.

Lemma in_unit_interval_one : in_unit_interval (S754_finite false 8388608 (-23)).
Proof. apply in_unit_interval_small. by vm_compute. Qed.

(** Clipping brings everything but NaN into the interval. *)
Lemma clip_range x :
  SFis_nan x = false ->
  (forall s m e, x = S754_finite s m e -> Zdigits2 (Zpos m) <= F32.prec) ->
  in_unit_interval (clip clip_min clip_max x).
Proof.
  intros Hnan Hdig. unfold clip. rewrite Hnan, clip_min_eq, clip_max_eq.
  unfold F32.gtb, F32.ltb, SFltb.
  destruct x as [s|s| |s m e]; [| |discriminate Hnan|].
  - destruct s; cbn [SFcompare]; apply in_unit_interval_zero.
  - destruct s; cbn [SFcompare];
      [apply in_unit_interval_minus_one|apply in_unit_interval_one].
  - specialize (Hdig s m e eq_refl).
    assert (Hm : Zpos m < 2 ^ 24).
    { apply Zdigits2_le_iff; [lia|lia|exact Hdig]. }
    assert (Hsmall : e <= -23 -> (e = -23 -> Zpos m <= 8388608) ->
                     in_unit_interval (S754_finite s m e)).
    { intros He H23. destruct e as [|p|p]; try lia.
      apply in_unit_interval_small.
      destruct (Z.eq_dec (Zneg p) (-23)) as [Heq|Hne].
      - injection Heq as ->. specialize (H23 eq_refl). change (2 ^ 23) with 8388608. lia.
      - assert (2 ^ 24 <= 2 ^ Zpos p) by (apply Z.pow_le_mono_r; lia). lia. }
    cbn [SFcompare]. rewrite ?compare_cont_Z.
    destruct s.
    + (* negative: either above -1 and kept, or replaced by -1 *)
      destruct (Z.compare_spec (-23) e) as [He|He|He]; cbv iota beta.
      * destruct (Z.compare_spec (Zpos 8388608) (Zpos m)) as [Hc|Hc|Hc];
          cbv [CompOpp]; cbv iota beta; cbn [SFcompare]; cbv iota beta.
        -- apply in_unit_interval_minus_one.
        -- apply in_unit_interval_minus_one.
        -- apply Hsmall; lia.
      * cbv [CompOpp]; cbv iota beta; cbn [SFcompare]; cbv iota beta.
        apply in_unit_interval_minus_one.
      * cbv [CompOpp]; cbv iota beta; cbn [SFcompare]; cbv iota beta.
        apply Hsmall; lia.
    + cbv iota beta. cbn [SFcompare].
      rewrite ?compare_cont_Z.
      destruct (Z.compare_spec e (-23)) as [He|He|He]; cbv iota beta.
      * destruct (Z.compare_spec (Zpos m) (Zpos 8388608)) as [Hc|Hc|Hc]; cbv iota beta.
        -- apply in_unit_interval_one.
        -- apply Hsmall; lia.
        -- apply in_unit_interval_one.
      * apply Hsmall; lia.
      * apply in_unit_interval_one.
Qed.

Lemma ndvi_pixel_range red nir :
  F32.finite red -> F32.finite nir -> in_unit_interval (ndvi_pixel red nir).
Proof.
  intros [Hfr Hvr] [Hfn Hvn]. unfold ndvi_pixel.
  pose proof (SFadd_finite_not_nan F32.prec F32.emax F32_prec_gt_0 nir red Hfn Hfr) as Hden.
  pose proof (SFsub_finite_not_nan F32.prec F32.emax F32_prec_gt_0 nir red Hfn Hfr) as Hnum.
  fold (F32.add nir red) in Hden. fold (F32.sub nir red) in Hnum.
  destruct (F32.gtb (F32.abs (F32.add nir red)) epsilon) eqn:Hmask.
  2:{ apply clip_range; [reflexivity|]. intros s m e Heq. discriminate Heq. }
  assert (Hzero : SFis_zero (F32.add nir red) = false).
  { destruct (F32.add nir red) as [s| | |]; try reflexivity.
    rewrite epsilon_eq in Hmask. destruct s; discriminate Hmask. }
  assert (Hone : SFis_finite (F32.sub nir red) = true \/ SFis_finite (F32.add nir red) = true).
  { destruct (SFadd_SFsub_not_both_infinite F32.prec F32.emax F32_prec_gt_0 F32_prec_lt_emax
                nir red Hfn Hfr Hvn Hvr); auto. }
  destruct (SFdiv_shape F32.prec F32.emax
              (F32.sub nir red) (F32.add nir red) Hnum Hden Hone (or_intror Hzero))
    as (s & [Hd|[Hd|(m & e & Hd & Hdig & _)]]);
    fold (F32.div (F32.sub nir red) (F32.add nir red)) in Hd; rewrite Hd.
  - apply clip_range; [reflexivity|]. intros s' m' e' Heq. discriminate Heq.
  - apply clip_range; [reflexivity|]. intros s' m' e' Heq. discriminate Heq.
  - apply clip_range; [reflexivity|]. intros s' m' e' [= -> -> ->]. exact Hdig.
Qed.

Lemma Forall_zip_with {A B C} (P : A -> Prop) (Q : B -> Prop) (R : C -> Prop)
    (f : A -> B -> C) l1 l2 :
  (forall a b, P a -> Q b -> R (f a b)) ->
  Forall P l1 -> Forall Q l2 -> Forall R (zip_with f l1 l2).
Proof.
  intros Hf H1. revert l2.
  induction H1 as [|a l1 Ha _ IH]; intros l2 H2; [constructor|].
  destruct H2 as [|b l2 Hb H2]; cbn [zip_with]; constructor; auto.
Qed.

(** C1. On grids of one shape whose values are all finite float32
    numbers, [compute_ndvi] returns a grid, and every value of it is a
    number between -1 and 1 inclusive (so neither NaN nor an infinity). *)
Theorem C1_range_invariant (red nir : ndarray spec_float) :
  shape red = shape nir ->
  Forall F32.finite (data red) -> Forall F32.finite (data nir) ->
  exists out, compute_ndvi red nir = Return out
              /\ Forall in_unit_interval (data out).
Proof.
  intros Hs Hr Hn. eexists. split; [exact (compute_ndvi_eq red nir Hs)|].
  cbn [data]. apply (Forall_zip_with F32.finite F32.finite); [|done..].
  intros n r Hfn Hfr. by apply ndvi_pixel_range.
Qed.

Lemma px_0_1_finite : F32.finite px_0_1.
Proof. split; reflexivity. Qed.

Lemma px_0_5_finite : F32.finite px_0_5.
Proof. split; reflexivity. Qed.

Lemma C1_range_invariant_witness :
  exists out,
    compute_ndvi (NdArray [1; 2]%nat [px_0_1; px_0_5])
                 (NdArray [1; 2]%nat [px_0_5; px_0_1]) = Return out
    /\ Forall in_unit_interval (data out).
Proof.
  apply (C1_range_invariant (NdArray [1; 2]%nat [px_0_1; px_0_5])
           (NdArray [1; 2]%nat [px_0_5; px_0_1])).
  - reflexivity.
  - repeat constructor; reflexivity.
  - repeat constructor; reflexivity.
Defined.

(** A valid float32 of absolute value at most 1e-6 fails the test
    [abs(d) > 1e-6] of the source, which compares with the float32
    nearest to 1e-6. *)
Lemma small_denominator_masked den q :
  F32.valid den -> SF2Q den = Some q ->
  (- (1 # 1000000) <= q <= 1 # 1000000)%Q ->
  F32.gtb (F32.abs den) epsilon = false.
Proof.
  intros Hv Hq Hsmall. rewrite epsilon_eq.
  destruct den as [s|s| |s m e]; [reflexivity|discriminate Hq|discriminate Hq|].
  unfold F32.valid in Hv. cbn [valid_binary] in Hv.
  destruct (bounded_inv F32.prec F32.emax F32_prec_gt_0 m e Hv) as (Hm & _ & Hemin & Hc).
  unfold F32.gtb, F32.abs, SFltb. cbn [SFabs SFcompare]. rewrite compare_cont_Z.
  assert (Hnorm : -149 < e -> 2 ^ 23 <= Zpos m).
  { intros He. destruct (Zdigits2_bounds (Zpos m) ltac:(lia)) as [Hlo _].
    unfold SpecFloat.fexp, SpecFloat.emin, F32.prec, F32.emax in Hc.
    assert (Zdigits2 (Zpos m) = 24) as Hd by lia. by rewrite Hd in Hlo. }
  assert (Hbig : forall p, e = Zneg p -> Zpos m * 1000000 <= 2 ^ Zpos p).
  { intros p ->. cbn [SF2Q] in Hq. injection Hq as <-.
    destruct Hsmall as [H1 H2]. unfold Qle in H1, H2.
    cbn [Qnum Qden Qopp] in H1, H2. rewrite Pos2Z.inj_pow in H1, H2.
    destruct s; cbn [cond_Zopp] in H1, H2; lia. }
  destruct (Z.compare_spec (-43) e) as [He|He|He]; [| |reflexivity].
  - subst e. specialize (Hbig _ eq_refl). change (2 ^ 43) with 8796093022208 in Hbig.
    destruct (Z.compare_spec (Zpos 8796093) (Zpos m)); try reflexivity. lia.
  - exfalso. specialize (Hnorm ltac:(lia)). change (2 ^ 23) with 8388608 in Hnorm.
    destruct e as [|p|p].
    + cbn [SF2Q] in Hq. injection Hq as <-.
      destruct Hsmall as [H1 H2]. unfold Qle in H1, H2. cbn [Qnum Qden Qopp] in H1, H2.
      destruct s; cbn [cond_Zopp] in H1, H2; lia.
    + cbn [SF2Q] in Hq. injection Hq as <-.
      assert (0 < 2 ^ Zpos p) by (apply Z.pow_pos_nonneg; lia).
      destruct Hsmall as [H1 H2]. unfold Qle in H1, H2. cbn [Qnum Qden Qopp] in H1, H2.
      destruct s; cbn [cond_Zopp] in H1, H2; nia.
    + specialize (Hbig _ eq_refl).
      assert (2 ^ Zpos p <= 2 ^ 42) by (apply Z.pow_le_mono_r; lia).
      change (2 ^ 42) with 4398046511104 in *. lia.
Qed.

Lemma ndvi_pixel_masked red nir :
  F32.gtb (F32.abs (F32.add nir red)) epsilon = false ->
  ndvi_pixel red nir = S754_zero false.
Proof. intros Hmask. unfold ndvi_pixel. by rewrite Hmask. Qed.

Lemma ndvi_pixel_zero red nir :
  SFis_zero red = true -> SFis_zero nir = true ->
  ndvi_pixel red nir = S754_zero false.
Proof.
  destruct red as [[]| | |], nir as [[]| | |]; try discriminate; intros _ _;
    vm_compute; reflexivity.
Qed.

(** C3. At a pixel position whose denominator [nir + red] has absolute
    value at most 1e-6, and in particular where red and nir are both 0,
    the output is exactly +0.0; where the division is performed the
    denominator is an infinity or a number of absolute value above
    1e-6. *)
Theorem C3_zero_denominator (red nir out : ndarray spec_float) (i : nat) (r n : spec_float) :
  compute_ndvi red nir = Return out ->
  data red !! i = Some r -> data nir !! i = Some n ->
  F32.valid r -> F32.valid n ->
  (forall q, SF2Q (F32.add n r) = Some q ->
             (- (1 # 1000000) <= q <= 1 # 1000000)%Q ->
             data out !! i = Some (S754_zero false))
  /\ (SFis_zero r = true -> SFis_zero n = true ->
      data out !! i = Some (S754_zero false))
  /\ (F32.gtb (F32.abs (F32.add n r)) epsilon = false ->
      data out !! i = Some (S754_zero false))
  /\ (F32.gtb (F32.abs (F32.add n r)) epsilon = true ->
      data out !! i = Some (clip clip_min clip_max (F32.div (F32.sub n r) (F32.add n r)))
      /\ ((exists s, F32.add n r = S754_infinity s)
          \/ exists q, SF2Q (F32.add n r) = Some q
                       /\ (q < - (1 # 1000000) \/ 1 # 1000000 < q)%Q)).
Proof.
  intros Hout Hr Hn Hvr Hvn.
  rewrite (compute_ndvi_lookup red nir out i r n Hout Hr Hn).
  pose proof (F32_add_valid n r Hvn Hvr) as Hvd.
  split; [|split; [|split]].
  - intros q Hq Hsmall. f_equal. apply ndvi_pixel_masked.
    by apply (small_denominator_masked _ q).
  - intros Hzr Hzn. f_equal. by apply ndvi_pixel_zero.
  - intros Hmask. f_equal. by apply ndvi_pixel_masked.
  - intros Hmask. split; [unfold ndvi_pixel; by rewrite Hmask|].
    destruct (F32.add n r) as [s|s| |s m e] eqn:Hden; [| by left; eauto | done |].
    + by destruct s.
    + right. destruct (SF2Q (S754_finite s m e)) as [q|] eqn:Hq;
        [|by destruct e].
      exists q. split; [done|].
      destruct (Qlt_le_dec q (- (1 # 1000000))) as [|Hlo]; [by left|].
      destruct (Qlt_le_dec (1 # 1000000) q) as [|Hhi]; [by right|].
      rewrite <- Hden in Hvd.
      rewrite (small_denominator_masked (S754_finite s m e) q) in Hmask; try done.
      by rewrite <- Hden.
Qed.

Lemma C3_zero_denominator_witness :
  data (NdArray [1; 1]%nat [S754_zero false]) !! 0%nat = Some (S754_zero false).
Proof.
  apply (proj1 (proj2 (C3_zero_denominator
           (NdArray [1; 1]%nat [S754_zero false]) (NdArray [1; 1]%nat [S754_zero false])
           (NdArray [1; 1]%nat [S754_zero false]) 0 (S754_zero false) (S754_zero false)
           eq_refl eq_refl eq_refl eq_refl eq_refl))); reflexivity.
Defined.

(** C4. Grids of unequal shape make [compute_ndvi] raise the
    shape-mismatch [ValueError], whose message is built from the [repr] of
    both shapes, and no grid is returned (nothing is broadcast or cut);
    grids of equal shape never raise and give a grid of that shape. *)
Theorem C4_shape_contract (red nir : ndarray spec_float) :
  (shape red ≠ shape nir ->
     compute_ndvi red nir
       = Raise (ValueError ("Band dimension mismatch: RED " +:+ repr_shape (shape red)
                              +:+ " vs NIR " +:+ repr_shape (shape nir)))
     /\ forall out, compute_ndvi red nir ≠ Return out)
  /\ (shape red = shape nir ->
        exists out, compute_ndvi red nir = Return out
                    /\ shape out = shape red
                    /\ (forall e, compute_ndvi red nir ≠ Raise e)).
Proof.
  split.
  - intros Hne. unfold compute_ndvi. rewrite decide_True by done.
    split; [reflexivity | discriminate].
  - intros Heq. rewrite (compute_ndvi_eq _ _ Heq).
    eexists. split; [reflexivity|]. split; [by cbn | discriminate].
Qed.

Lemma C4_shape_contract_witness :
  (compute_ndvi (NdArray [2; 3]%nat (replicate 6 F32.zero))
                (NdArray [3; 2]%nat (replicate 6 F32.zero))
   = Raise (ValueError "Band dimension mismatch: RED (2, 3) vs NIR (3, 2)"))
  /\ (exists out,
        compute_ndvi (NdArray [2; 3]%nat (replicate 6 F32.zero))
                     (NdArray [2; 3]%nat (replicate 6 clip_max)) = Return out
        /\ shape out = [2; 3]%nat).
Proof.
  split.
  - apply (proj1 (C4_shape_contract (NdArray [2; 3]%nat (replicate 6 F32.zero))
                    (NdArray [3; 2]%nat (replicate 6 F32.zero)))).
    cbn. discriminate.
  - destruct (proj2 (C4_shape_contract (NdArray [2; 3]%nat (replicate 6 F32.zero))
                       (NdArray [2; 3]%nat (replicate 6 clip_max))) eq_refl)
      as (out & Hout & Hshape & _).
    exists out. split; [exact Hout | exact Hshape].
Defined.

(** ** Band boundaries *)

Lemma finite_values_app s s1 s2 l1 l2 :
  finite_values (NdArray s (l1 ++ l2))
  = finite_values (NdArray s1 l1) ++ finite_values (NdArray s2 l2).
Proof. rewrite !finite_values_filter. cbn [data]. apply filter_app. Qed.

Lemma boundary_count v b :
  SFis_finite v = true -> in_band b v = true ->
  forall b' s s' l1 l2,
    count_band b' (finite_values (NdArray s (l1 ++ v :: l2)))
    = count_band b' (finite_values (NdArray s' (l1 ++ l2)))
      + (if decide (b' = b) then 1 else 0).
Proof.
  intros Hfin Hb b' s s' l1 l2.
  rewrite (finite_values_app s s s l1 (v :: l2)), (finite_values_app s' s s l1 l2).
  rewrite !count_band_app.
  rewrite (finite_values_filter (NdArray s (v :: l2))). cbn [data].
  rewrite filter_cons, decide_True by done.
  rewrite count_band_cons, (finite_values_filter (NdArray s l2)). cbn [data].
  case_decide as Hbb.
  - subst b'. rewrite Hb. lia.
  - destruct (in_band b' v) eqn:Hb'; [|lia].
    destruct Hbb. by apply (in_band_unique _ _ v).
Qed.

Lemma boundary_length v :
  SFis_finite v = true ->
  forall s s' l1 l2,
    Z.of_nat (length (finite_values (NdArray s (l1 ++ v :: l2))))
    = Z.of_nat (length (finite_values (NdArray s' (l1 ++ l2)))) + 1.
Proof.
  intros Hfin s s' l1 l2.
  rewrite (finite_values_app s s s l1 (v :: l2)), (finite_values_app s' s s l1 l2).
  rewrite !length_app.
  rewrite (finite_values_filter (NdArray s (v :: l2))). cbn [data].
  rewrite filter_cons, decide_True by done.
  rewrite (finite_values_filter (NdArray s l2)). cbn [data length]. lia.
Qed.

(** What [calculate_statistics] returns for a grid that holds, somewhere,
    a finite pixel [v] of the band [b]: the dictionary of the grid
    without that pixel, with one more pixel in the total and one more in
    the count of [b], and in no other count. *)
Lemma boundary_statistics `{Reductions} v b :
  SFis_finite v = true -> in_band b v = true ->
  forall s s' l1 l2,
    let without := finite_values (NdArray s' (l1 ++ l2)) in
    let N := Z.of_nat (length without) in
    exists st,
      calculate_statistics (NdArray s (l1 ++ v :: l2)) = Return st
      /\ total_valid_pixels st = N + 1
      /\ bare_land_percent st
         = percent (count_bare without + (if decide (BareLand = b) then 1 else 0)) (N + 1)
      /\ stressed_vegetation_percent st
         = percent (count_stressed without + (if decide (Stressed = b) then 1 else 0)) (N + 1)
      /\ moderate_vegetation_percent st
         = percent (count_moderate without + (if decide (Moderate = b) then 1 else 0)) (N + 1)
      /\ healthy_vegetation_percent st
         = percent (count_healthy without + (if decide (Healthy = b) then 1 else 0)) (N + 1).
Proof.
  intros Hfin Hb s s' l1 l2. cbv zeta.
  pose proof (boundary_length v Hfin s s' l1 l2) as Hlen.
  pose proof (fun b' => boundary_count v b Hfin Hb b' s s' l1 l2) as Hcnt.
  unfold calculate_statistics.
  rewrite decide_False by lia.
  eexists. split; [reflexivity|].
  cbn [total_valid_pixels bare_land_percent stressed_vegetation_percent
       moderate_vegetation_percent healthy_vegetation_percent].
  rewrite Hlen.
  rewrite !count_bare_band, !count_stressed_band, !count_moderate_band,
    !count_healthy_band, !Hcnt.
  repeat split.
Qed.

(** C5. In [calculate_statistics] the band boundaries belong to the
    lower band.  A pixel whose value is the float32 0.2, anywhere in a
    grid, is counted as bare land in the returned dictionary: it adds
    one to the total and to the bare count behind [bare_land_percent]
    and to no other count; a pixel 0.4 is counted as stressed, a pixel
    0.6 as moderate.  The boundaries are sharp: the next float32 above
    0.2 is counted as stressed, the next above 0.4 as moderate and the
    next above 0.6 as healthy.  A grid of the single pixel 0.2 is
    reported as 100 percent bare land, 0.4 as 100 percent stressed and
    0.6 as 100 percent moderate. *)
Theorem C5_boundary_inclusive `{Reductions} (s s' : list nat) (l1 l2 : list spec_float) :
  let without := finite_values (NdArray s' (l1 ++ l2)) in
  let N := Z.of_nat (length without) in
  let counted (v : spec_float) (b : band) :=
    exists st,
      calculate_statistics (NdArray s (l1 ++ v :: l2)) = Return st
      /\ total_valid_pixels st = N + 1
      /\ bare_land_percent st
         = percent (count_bare without + (if decide (BareLand = b) then 1 else 0)) (N + 1)
      /\ stressed_vegetation_percent st
         = percent (count_stressed without + (if decide (Stressed = b) then 1 else 0)) (N + 1)
      /\ moderate_vegetation_percent st
         = percent (count_moderate without + (if decide (Moderate = b) then 1 else 0)) (N + 1)
      /\ healthy_vegetation_percent st
         = percent (count_healthy without + (if decide (Healthy = b) then 1 else 0)) (N + 1) in
  let alone (v : spec_float) :=
    match calculate_statistics (NdArray [1; 1]%nat [v]) with
    | Return st =>
        Some (bare_land_percent st, stressed_vegetation_percent st,
              moderate_vegetation_percent st, healthy_vegetation_percent st)
    | Raise _ => None
    end in
  (F32.of_double lit_0_2 = S754_finite false 13421773 (-26)
   /\ F32.of_double lit_0_4 = S754_finite false 13421773 (-25)
   /\ F32.of_double lit_0_6 = S754_finite false 10066330 (-24))
  /\ (counted (F32.of_double lit_0_2) BareLand
      /\ counted (F32.of_double lit_0_4) Stressed
      /\ counted (F32.of_double lit_0_6) Moderate)
  /\ (counted (S754_finite false 13421774 (-26)) Stressed
      /\ counted (S754_finite false 13421774 (-25)) Moderate
      /\ counted (S754_finite false 10066331 (-24)) Healthy)
  /\ (alone (F32.of_double lit_0_2)
        = Some (F64.of_int 100, S754_zero false, S754_zero false, S754_zero false)
      /\ alone (F32.of_double lit_0_4)
        = Some (S754_zero false, F64.of_int 100, S754_zero false, S754_zero false)
      /\ alone (F32.of_double lit_0_6)
        = Some (S754_zero false, S754_zero false, F64.of_int 100, S754_zero false)).
Proof.
  cbv zeta.
  split; [repeat split; vm_compute; reflexivity|].
  split; [|split].
  - split; [|split].
    + apply (boundary_statistics (F32.of_double lit_0_2) BareLand eq_refl eq_refl).
    + apply (boundary_statistics (F32.of_double lit_0_4) Stressed eq_refl eq_refl).
    + apply (boundary_statistics (F32.of_double lit_0_6) Moderate eq_refl eq_refl).
  - split; [|split].
    + apply (boundary_statistics (S754_finite false 13421774 (-26)) Stressed
               eq_refl eq_refl).
    + apply (boundary_statistics (S754_finite false 13421774 (-25)) Moderate
               eq_refl eq_refl).
    + apply (boundary_statistics (S754_finite false 10066331 (-24)) Healthy
               eq_refl eq_refl).
  - assert (H2 : F32.of_double lit_0_2 = S754_finite false 13421773 (-26))
      by (vm_compute; reflexivity).
    assert (H4 : F32.of_double lit_0_4 = S754_finite false 13421773 (-25))
      by (vm_compute; reflexivity).
    assert (H6 : F32.of_double lit_0_6 = S754_finite false 10066330 (-24))
      by (vm_compute; reflexivity).
    rewrite H2, H4, H6.
    unfold calculate_statistics.
    split; [|split]; (rewrite decide_False by (vm_compute; discriminate));
      cbn [bare_land_percent stressed_vegetation_percent moderate_vegetation_percent
           healthy_vegetation_percent]; vm_compute; reflexivity.
Qed.

(** C6. [calculate_statistics] raises exactly when the grid has no finite
    value; the no-valid-pixels [ValueError] is the only exception it can
    raise; in particular a grid of NaN values only raises it. *)
Theorem C6_no_valid_pixels `{Reductions} (ndvi : ndarray spec_float) :
  (calculate_statistics ndvi = Raise (ValueError no_valid_pixels_message)
   <-> Forall (fun v => SFis_finite v = false) (data ndvi))
  /\ (forall e, calculate_statistics ndvi = Raise e ->
                e = ValueError "No valid NDVI pixels found after masking")
  /\ (Forall (fun v => v = S754_nan) (data ndvi) ->
      calculate_statistics ndvi = Raise (ValueError no_valid_pixels_message)).
Proof.
  assert (Hiff : length (finite_values ndvi) = 0%nat
                 <-> Forall (fun v => SFis_finite v = false) (data ndvi)).
  { apply finite_values_empty. }
  assert (Hraise : Forall (fun v => SFis_finite v = false) (data ndvi) ->
                   calculate_statistics ndvi = Raise (ValueError no_valid_pixels_message)).
  { intros Hall. unfold calculate_statistics. by rewrite decide_True by by apply Hiff. }
  split; [split; [|exact Hraise]|split].
  - unfold calculate_statistics. case_decide as Hlen; [by intros; apply Hiff | done].
  - unfold calculate_statistics. case_decide; [by intros e [= <-] | done].
  - intros Hnan. apply Hraise. eapply Forall_impl; [exact Hnan|]. by intros v ->.
Qed.

Lemma C6_no_valid_pixels_witness :
  @calculate_statistics numpy_reductions
     (NdArray [1; 3]%nat [S754_nan; S754_nan; S754_nan])
  = Raise (ValueError no_valid_pixels_message).
Proof.
  apply (proj2 (proj2 (@C6_no_valid_pixels numpy_reductions
                         (NdArray [1; 3]%nat [S754_nan; S754_nan; S754_nan])))).
  cbn. repeat constructor.
Defined.

(** C7. For the pixel pair red = 0.1, nir = 0.5 (as float32) the
    transform yields 11184810 / 2^24 = 0.66666663..., that is 0.6667
    to four decimals (0.667 to three); the value lies above 0.6, is
    counted as healthy and as nothing else, and [calculate_statistics]
    reports a grid of this one pixel as 100 percent healthy. *)
Theorem C7_known_value :
  let v := ndvi_pixel px_0_1 px_0_5 in
  SF2Q v = Some (11184810 # 2 ^ 24)
  /\ (6666666 # 10000000 < 11184810 # 2 ^ 24 < 6666667 # 10000000)%Q
  /\ py_round (F64.of_single v) 3 = F64.of_ratio 667 1000
  /\ py_round (F64.of_single v) 4 = F64.of_ratio 6667 10000
  /\ F32.gtb v (F32.of_double lit_0_6) = true
  /\ (count_healthy [v], count_moderate [v], count_stressed [v], count_bare [v])
     = (1, 0, 0, 0)
  /\ compute_ndvi (NdArray [1; 1]%nat [px_0_1]) (NdArray [1; 1]%nat [px_0_5])
     = Return (NdArray [1; 1]%nat [v])
  /\ forall R : Reductions, exists st,
       @calculate_statistics R (NdArray [1; 1]%nat [v]) = Return st
       /\ healthy_vegetation_percent st = F64.of_int 100
       /\ total_valid_pixels st = 1.
Proof.
  cbv zeta.
  assert (Hv : ndvi_pixel px_0_1 px_0_5 = S754_finite false 11184810 (-24))
    by (vm_compute; reflexivity).
  rewrite Hv.
  split; [vm_compute; reflexivity|].
  split; [split; vm_compute; reflexivity|].
  split; [vm_compute; reflexivity|].
  split; [vm_compute; reflexivity|].
  split; [vm_compute; reflexivity|].
  split; [vm_compute; reflexivity|].
  split; [vm_compute; reflexivity|].
  intros R. eexists. split; [reflexivity|].
  cbn [healthy_vegetation_percent total_valid_pixels].
  split; vm_compute; reflexivity.
Qed.

Lemma ndvi_all_zero (red nir : list spec_float) :
  length red = length nir ->
  Forall (fun v => SFis_zero v = true) red ->
  Forall (fun v => SFis_zero v = true) nir ->
  zip_with (fun n r => ndvi_pixel r n) nir red = replicate (length red) F32.zero.
Proof.
  intros Hlen Hr. revert nir Hlen.
  induction Hr as [|r red Hz _ IH]; intros [|n nir] Hlen Hn; try discriminate; [done|].
  apply Forall_cons in Hn as [Hzn Hn]. cbn [zip_with length replicate].
  rewrite (ndvi_pixel_zero r n Hz Hzn). f_equal. apply IH; [|done].
  by injection Hlen.
Qed.

Lemma count_band_replicate b n v :
  count_band b (replicate n v) = if in_band b v then Z.of_nat n else 0.
Proof.
  induction n as [|n IH]; [by destruct (in_band b v)|].
  cbn [replicate]. rewrite count_band_cons, IH. destruct (in_band b v); lia.
Qed.

Lemma finite_values_replicate_zero s n :
  finite_values (NdArray s (replicate n F32.zero)) = replicate n F32.zero.
Proof.
  rewrite finite_values_filter. cbn [data].
  induction n as [|n IH]; [done|].
  cbn [replicate]. rewrite filter_cons, decide_True by done. by rewrite IH.
Qed.

(** C8, amended.  For a grid with at least one pixel in which every pixel
    has red = 0 and nir = 0 (of either sign), [compute_ndvi] returns the
    grid of +0.0 values and [calculate_statistics] does not raise: all
    pixels are valid and counted as bare land, none in another class,
    and the report is 100 percent bare land and 0 percent for the rest. *)
Theorem C8_all_degenerate `{Reductions} (red nir : ndarray spec_float) :
  shape red = shape nir -> length (data red) = length (data nir) ->
  (0 < length (data red))%nat -> Z.of_nat (length (data red)) < 2 ^ 63 ->
  Forall (fun v => SFis_zero v = true) (data red) ->
  Forall (fun v => SFis_zero v = true) (data nir) ->
  exists out st,
    compute_ndvi red nir = Return out
    /\ data out = replicate (length (data red)) (S754_zero false)
    /\ calculate_statistics out = Return st
    /\ count_bare (finite_values out) = Z.of_nat (length (data red))
    /\ count_stressed (finite_values out) = 0
    /\ count_moderate (finite_values out) = 0
    /\ count_healthy (finite_values out) = 0
    /\ total_valid_pixels st = Z.of_nat (length (data red))
    /\ bare_land_percent st = F64.of_int 100
    /\ stressed_vegetation_percent st = S754_zero false
    /\ moderate_vegetation_percent st = S754_zero false
    /\ healthy_vegetation_percent st = S754_zero false.
Proof.
  intros Hs Hlen Hpos Hsize Hr Hn.
  set (N := length (data red)) in *.
  pose proof (compute_ndvi_eq red nir Hs) as Hout.
  rewrite (ndvi_all_zero (data red) (data nir) Hlen Hr Hn) in Hout. fold N in Hout.
  eexists. eexists. split; [exact Hout|]. split; [reflexivity|].
  assert (Hfv : finite_values (NdArray (shape nir) (replicate N F32.zero))
                = replicate N F32.zero) by apply finite_values_replicate_zero.
  assert (Hb : count_bare (replicate N F32.zero) = Z.of_nat N).
  { rewrite count_bare_band, count_band_replicate. reflexivity. }
  assert (Hst : count_stressed (replicate N F32.zero) = 0).
  { rewrite count_stressed_band, count_band_replicate. reflexivity. }
  assert (Hmo : count_moderate (replicate N F32.zero) = 0).
  { rewrite count_moderate_band, count_band_replicate. reflexivity. }
  assert (Hh : count_healthy (replicate N F32.zero) = 0).
  { rewrite count_healthy_band, count_band_replicate. reflexivity. }
  unfold calculate_statistics. rewrite Hfv, length_replicate.
  rewrite decide_False by lia.
  split; [reflexivity|].
  cbn [total_valid_pixels bare_land_percent stressed_vegetation_percent
       moderate_vegetation_percent healthy_vegetation_percent].
  rewrite Hb, Hst, Hmo, Hh.
  rewrite percent_all, percent_zero by lia.
  repeat split; reflexivity.
Qed.

Lemma C8_all_degenerate_witness :
  exists out st,
    compute_ndvi (NdArray [1; 2]%nat [S754_zero false; S754_zero true])
                 (NdArray [1; 2]%nat [S754_zero false; S754_zero false]) = Return out
    /\ @calculate_statistics numpy_reductions out = Return st
    /\ bare_land_percent st = F64.of_int 100.
Proof.
  destruct (@C8_all_degenerate numpy_reductions
              (NdArray [1; 2]%nat [S754_zero false; S754_zero true])
              (NdArray [1; 2]%nat [S754_zero false; S754_zero false]))
    as (out & st & Hout & _ & Hst & _ & _ & _ & _ & _ & Hb & _).
  - reflexivity.
  - reflexivity.
  - cbn [data length]. lia.
  - cbn [data length]. lia.
  - repeat constructor.
  - repeat constructor.
  - exists out, st. split; [exact Hout|]. split; [exact Hst|exact Hb].
Defined.

(** C8, as stated, fails on the grid without pixels: every pixel of it
    has red = nir = 0, the transform returns the empty grid, and the
    classifier raises. *)
Lemma C8_all_degenerate_counterexample :
  Forall (fun v => SFis_zero v = true) (data grid_0x0)
  /\ compute_ndvi grid_0x0 grid_0x0 = Return grid_0x0
  /\ @calculate_statistics numpy_reductions grid_0x0
     = Raise (ValueError no_valid_pixels_message).
Proof. split; [constructor|]. split; reflexivity. Qed.

Lemma ndvi_pixel_nan r n :
  SFis_nan r || SFis_nan n = true -> ndvi_pixel r n = S754_zero false.
Proof.
  intros Hnan. unfold ndvi_pixel.
  assert (Hden : F32.add n r = S754_nan).
  { destruct r, n; try discriminate; reflexivity. }
  rewrite Hden. reflexivity.
Qed.

Lemma count_band_le_length b l : count_band b l <= Z.of_nat (length l).
Proof. unfold count_band. pose proof (length_filter (fun v => in_band b v = true) l). lia. Qed.

Lemma nan_pixels_counted (red nir : list spec_float) :
  nan_pixels red nir
  <= count_band BareLand
       (filter (fun v => SFis_finite v = true)
               (zip_with (fun n r => ndvi_pixel r n) nir red)).
Proof.
  unfold nan_pixels. revert nir.
  induction red as [|r red IH]; intros [|n nir]; try done.
  cbn [zip zip_with]. rewrite !filter_cons. cbn [fst snd].
  specialize (IH nir).
  destruct (SFis_nan r || SFis_nan n) eqn:Hnan.
  - rewrite (ndvi_pixel_nan r n Hnan).
    rewrite !decide_True by done. rewrite count_band_cons.
    change (in_band BareLand (S754_zero false)) with true.
    cbn [length]. lia.
  - rewrite decide_False by done.
    case_decide; [rewrite count_band_cons; destruct (in_band _ _)|]; lia.
Qed.

(** C10. Where red or nir is NaN the output pixel is exactly +0.0: it is
    finite and at most 0.2, so it passes the finite-value mask of the
    classifier and is counted as bare land.  On grids of one shape, at
    least as many pixels are counted bare, and valid, as there are
    positions with a NaN band value, and with one such position the
    classifier does not raise. *)
Theorem C10_nan_counted_as_bare `{Reductions} (red nir : ndarray spec_float) :
  (forall r n, SFis_nan r || SFis_nan n = true ->
     F32.add n r = S754_nan
     /\ F32.gtb (F32.abs (F32.add n r)) epsilon = false
     /\ ndvi_pixel r n = S754_zero false
     /\ SFis_finite (ndvi_pixel r n) = true
     /\ in_band BareLand (ndvi_pixel r n) = true)
  /\ (shape red = shape nir ->
      exists out, compute_ndvi red nir = Return out
        /\ (forall i r n, data red !! i = Some r -> data nir !! i = Some n ->
              SFis_nan r || SFis_nan n = true ->
              data out !! i = Some (S754_zero false))
        /\ nan_pixels (data red) (data nir) <= count_bare (finite_values out)
        /\ (0 < nan_pixels (data red) (data nir) ->
            exists st, calculate_statistics out = Return st
              /\ nan_pixels (data red) (data nir) <= total_valid_pixels st)).
Proof.
  split.
  - intros r n Hnan. rewrite (ndvi_pixel_nan r n Hnan).
    assert (Hden : F32.add n r = S754_nan).
    { destruct r, n; try discriminate; reflexivity. }
    rewrite Hden. repeat split; reflexivity.
  - intros Hs. eexists. split; [exact (compute_ndvi_eq red nir Hs)|].
    pose proof (nan_pixels_counted (data red) (data nir)) as Hcount.
    split; [|split].
    + intros i r n Hr Hn Hnan. cbn [data].
      rewrite lookup_zip_with, Hn. cbn. rewrite Hr. cbn.
      by rewrite (ndvi_pixel_nan r n Hnan).
    + by rewrite count_bare_band, finite_values_filter.
    + intros Hpos. unfold calculate_statistics.
      rewrite finite_values_filter. cbn [data].
      pose proof (count_band_le_length BareLand
        (filter (fun v => SFis_finite v = true)
           (zip_with (fun n r => ndvi_pixel r n) (data nir) (data red)))) as Hle.
      rewrite decide_False by lia.
      eexists. split; [reflexivity|]. cbn [total_valid_pixels]. lia.
Qed.

Lemma C10_nan_counted_as_bare_witness :
  exists out,
    compute_ndvi (NdArray [1; 2]%nat [S754_nan; px_0_1])
                 (NdArray [1; 2]%nat [px_0_5; S754_nan]) = Return out
    /\ 2 <= count_bare (finite_values out).
Proof.
  destruct (proj2 (@C10_nan_counted_as_bare numpy_reductions
                     (NdArray [1; 2]%nat [S754_nan; px_0_1])
                     (NdArray [1; 2]%nat [px_0_5; S754_nan])) eq_refl)
    as (out & Hout & _ & Hcount & _).
  exists out. split; [exact Hout | exact Hcount].
Defined.

(** ** Classification completeness *)

Lemma thr_0_2_eq : thr_0_2 = S754_finite false 13421773 (-26).
Proof. vm_compute. reflexivity. Qed.

Lemma thr_0_4_eq : thr_0_4 = S754_finite false 13421773 (-25).
Proof. vm_compute. reflexivity. Qed.

Lemma thr_0_6_eq : thr_0_6 = S754_finite false 10066330 (-24).
Proof. vm_compute. reflexivity. Qed.

Lemma count_band_nonneg b l : 0 <= count_band b l.
Proof. unfold count_band. lia. Qed.

(** The four percentages of counts that add up to [N] add up to 100 up
    to two hundredths and the representation error of four doubles. *)
Lemma percent_sum_bound c1 c2 c3 c4 N :
  0 <= c1 -> 0 <= c2 -> 0 <= c3 -> 0 <= c4 ->
  c1 + c2 + c3 + c4 = N -> 0 < N < 2 ^ 63 ->
  exists K1 K2 K3 K4 q1 q2 q3 q4,
    SF2Q (percent c1 N) = Some q1 /\ SF2Q (percent c2 N) = Some q2
    /\ SF2Q (percent c3 N) = Some q3 /\ SF2Q (percent c4 N) = Some q4
    /\ 9998 <= K1 + K2 + K3 + K4 <= 10002
    /\ (inject_Z (K1 + K2 + K3 + K4) / 100 - (4 # 10000000000000)
        <= q1 + q2 + q3 + q4
        <= inject_Z (K1 + K2 + K3 + K4) / 100 + (4 # 10000000000000))%Q.
Proof.
  intros H1 H2 H3 H4 Hsum HN.
  destruct (percent_error c1 N ltac:(lia) HN) as (K1 & q1 & Hq1 & _ & HK1 & Ht1 & He1 & _).
  destruct (percent_error c2 N ltac:(lia) HN) as (K2 & q2 & Hq2 & _ & HK2 & Ht2 & He2 & _).
  destruct (percent_error c3 N ltac:(lia) HN) as (K3 & q3 & Hq3 & _ & HK3 & Ht3 & He3 & _).
  destruct (percent_error c4 N ltac:(lia) HN) as (K4 & q4 & Hq4 & _ & HK4 & Ht4 & He4 & _).
  exists K1, K2, K3, K4, q1, q2, q3, q4.
  repeat (split; [assumption|]).
  assert (HNq : (0 < inject_Z N)%Q) by (apply inject_Z_pos; lia).
  assert (Hone : (10000 * (inject_Z c1 / inject_Z N) + 10000 * (inject_Z c2 / inject_Z N)
                  + 10000 * (inject_Z c3 / inject_Z N) + 10000 * (inject_Z c4 / inject_Z N)
                  == 10000)%Q).
  { rewrite <- Hsum. rewrite !inject_Z_plus. field.
    rewrite <- !inject_Z_plus, Hsum. intros H0. rewrite H0 in HNq.
    by apply Qlt_irrefl in HNq. }
  assert (HKs : (inject_Z (K1 + K2 + K3 + K4)
                 == inject_Z K1 + inject_Z K2 + inject_Z K3 + inject_Z K4)%Q).
  { rewrite !inject_Z_plus. reflexivity. }
  split.
  - assert (Hlo : (inject_Z 9997 < inject_Z (K1 + K2 + K3 + K4))%Q).
    { rewrite HKs. change (inject_Z 9997) with 9997%Q. lra. }
    assert (Hhi : (inject_Z (K1 + K2 + K3 + K4) < inject_Z 10003)%Q).
    { rewrite HKs. change (inject_Z 10003) with 10003%Q. lra. }
    rewrite <- Zlt_Qlt in Hlo, Hhi. lia.
  - rewrite HKs. unfold Qdiv in *. change (/ 100)%Q with (1 # 100)%Q in *. split; lra.
Qed.

(** C2.  When [calculate_statistics] returns on a grid with N finite
    pixels (N below 2^63, as every array size is), every finite pixel
    lies in exactly one of the four bands, whose thresholds are the
    float32 values of 0.2, 0.4 and 0.6; the four counts that the code
    takes are the numbers of finite pixels in the bands and add up
    exactly to N, which is reported as [total_valid_pixels]; each
    reported percentage is the share of its count in N scaled to
    percent and rounded to two decimals; and the four reported
    percentages add up to 100 within 0.02, up to the representation
    error of the four doubles (below 10^-12). *)
Theorem C2_classification `{Reductions} (ndvi : ndarray spec_float) (st : stats) :
  calculate_statistics ndvi = Return st ->
  Z.of_nat (length (finite_values ndvi)) < 2 ^ 63 ->
  let valid_ndvi := finite_values ndvi in
  let N := Z.of_nat (length valid_ndvi) in
  (forall v, v ∈ valid_ndvi ->
     exists b, in_band b v = true /\ forall b', in_band b' v = true -> b' = b)
  /\ (thr_0_2 = S754_finite false 13421773 (-26)
      /\ thr_0_4 = S754_finite false 13421773 (-25)
      /\ thr_0_6 = S754_finite false 10066330 (-24))
  /\ count_healthy valid_ndvi = count_band Healthy valid_ndvi
  /\ count_moderate valid_ndvi = count_band Moderate valid_ndvi
  /\ count_stressed valid_ndvi = count_band Stressed valid_ndvi
  /\ count_bare valid_ndvi = count_band BareLand valid_ndvi
  /\ count_healthy valid_ndvi + count_moderate valid_ndvi
     + count_stressed valid_ndvi + count_bare valid_ndvi = N
  /\ 0 < N
  /\ total_valid_pixels st = N
  /\ healthy_vegetation_percent st = percent (count_healthy valid_ndvi) N
  /\ moderate_vegetation_percent st = percent (count_moderate valid_ndvi) N
  /\ stressed_vegetation_percent st = percent (count_stressed valid_ndvi) N
  /\ bare_land_percent st = percent (count_bare valid_ndvi) N
  /\ exists q,
       percent_sum st = Some q
       /\ (100 - (2 # 100) - (1 # 1000000000000) <= q
           <= 100 + (2 # 100) + (1 # 1000000000000))%Q.
Proof.
  intros Hst HN63. cbv zeta.
  assert (Hfin : Forall (fun v => SFis_nan v = false) (finite_values ndvi)).
  { apply Forall_forall. intros v Hv.
    apply finite_not_nan. by apply (finite_values_all_finite ndvi). }
  assert (Hsum : count_healthy (finite_values ndvi) + count_moderate (finite_values ndvi)
                 + count_stressed (finite_values ndvi) + count_bare (finite_values ndvi)
                 = Z.of_nat (length (finite_values ndvi))).
  { rewrite count_healthy_band, count_moderate_band, count_stressed_band, count_bare_band.
    by apply count_band_sum. }
  split.
  { intros v Hv. rewrite Forall_forall in Hfin.
    destruct (in_band_exists v (Hfin v Hv)) as [b Hb].
    exists b. split; [exact Hb|]. intros b' Hb'. by apply (in_band_unique b' b v). }
  split; [exact (conj thr_0_2_eq (conj thr_0_4_eq thr_0_6_eq))|].
  split; [apply count_healthy_band|]. split; [apply count_moderate_band|].
  split; [apply count_stressed_band|]. split; [apply count_bare_band|].
  split; [exact Hsum|].
  unfold calculate_statistics in Hst.
  case_decide as Hlen; [discriminate|].
  injection Hst as <-. cbn [total_valid_pixels healthy_vegetation_percent
    moderate_vegetation_percent stressed_vegetation_percent bare_land_percent].
  split; [lia|]. do 5 (split; [reflexivity|]).
  destruct (percent_sum_bound
              (count_healthy (finite_values ndvi)) (count_moderate (finite_values ndvi))
              (count_stressed (finite_values ndvi)) (count_bare (finite_values ndvi))
              (Z.of_nat (length (finite_values ndvi))))
    as (K1 & K2 & K3 & K4 & q1 & q2 & q3 & q4 & Hq1 & Hq2 & Hq3 & Hq4 & HK & Hq).
  { rewrite count_healthy_band. apply count_band_nonneg. }
  { rewrite count_moderate_band. apply count_band_nonneg. }
  { rewrite count_stressed_band. apply count_band_nonneg. }
  { rewrite count_bare_band. apply count_band_nonneg. }
  { exact Hsum. }
  { lia. }
  exists (q1 + q2 + q3 + q4)%Q. split.
  { unfold percent_sum. cbn [healthy_vegetation_percent moderate_vegetation_percent
      stressed_vegetation_percent bare_land_percent].
    rewrite Hq1, Hq2, Hq3, Hq4. reflexivity. }
  assert (Hlo : (inject_Z 9998 <= inject_Z (K1 + K2 + K3 + K4))%Q)
    by (rewrite <- Zle_Qle; lia).
  assert (Hhi : (inject_Z (K1 + K2 + K3 + K4) <= inject_Z 10002)%Q)
    by (rewrite <- Zle_Qle; lia).
  change (inject_Z 9998) with 9998%Q in Hlo. change (inject_Z 10002) with 10002%Q in Hhi.
  unfold Qdiv in Hq. change (/ 100)%Q with (1 # 100)%Q in Hq.
  split; lra.
Qed.

Lemma C2_classification_witness :
  exists st q,
    @calculate_statistics numpy_reductions grid_4x8 = Return st
    /\ total_valid_pixels st = 32
    /\ percent_sum st = Some q
    /\ (100 - (2 # 100) - (1 # 1000000000000) <= q
        <= 100 + (2 # 100) + (1 # 1000000000000))%Q.
Proof.
  destruct (@calculate_statistics numpy_reductions grid_4x8) as [st|e] eqn:Hst;
    [|vm_compute in Hst; discriminate].
  assert (HN : Z.of_nat (length (finite_values grid_4x8)) < 2 ^ 63)
    by (vm_compute; reflexivity).
  destruct (@C2_classification numpy_reductions grid_4x8 st Hst HN)
    as (_ & _ & _ & _ & _ & _ & _ & _ & Htot & _ & _ & _ & _ & q & Hq & Hb).
  exists st, q. split; [reflexivity|]. split; [exact Htot|]. split; [exact Hq|exact Hb].
Defined.

(** C2, as stated, fails on its percentages: for the 4 x 8 grid with one
    healthy, one moderate, one stressed and 29 bare pixels the class
    shares 3.125 and 90.625 are ties, rounded to the even 3.12 and 90.62,
    and the four reported percentages add up to 99.98, which is further
    than 0.01 from 100. *)
Lemma C2_classification_counterexample :
  exists st q,
    @calculate_statistics numpy_reductions grid_4x8 = Return st
    /\ (count_healthy (finite_values grid_4x8), count_moderate (finite_values grid_4x8),
        count_stressed (finite_values grid_4x8), count_bare (finite_values grid_4x8))
       = (1, 1, 1, 29)
    /\ healthy_vegetation_percent st = F64.of_ratio 312 100
    /\ moderate_vegetation_percent st = F64.of_ratio 312 100
    /\ stressed_vegetation_percent st = F64.of_ratio 312 100
    /\ bare_land_percent st = F64.of_ratio 9062 100
    /\ percent_sum st = Some q
    /\ (q < 100 - (1 # 100))%Q.
Proof.
  destruct (@calculate_statistics numpy_reductions grid_4x8) as [st|e] eqn:Hst;
    vm_compute in Hst; [|discriminate].
  injection Hst as <-.
  eexists. eexists. split; [reflexivity|].
  split; [vm_compute; reflexivity|].
  split; [vm_compute; reflexivity|].
  split; [vm_compute; reflexivity|].
  split; [vm_compute; reflexivity|].
  split; [vm_compute; reflexivity|].
  split; [vm_compute; reflexivity|].
  vm_compute. reflexivity.
Qed.

(** ** The store *)

Lemma alloc_inv v (h h' : store) l :
  alloc v h = (l, h') -> h !! l = None /\ h' !! l = Some v /\ h ⊆ h'.
Proof.
  unfold alloc. intros [= <- <-].
  assert (Hfresh : h !! fresh (dom h) = None).
  { apply not_elem_of_dom. apply is_fresh. }
  split; [done|]. split; [apply lookup_insert_eq|by apply insert_subseteq].
Qed.

Lemma alloc_all_subseteq objs (h : store) : h ⊆ alloc_all objs h.
Proof.
  unfold alloc_all. revert h. induction objs as [|o objs IH]; intros h; [done|].
  cbn [foldl]. etrans; [|apply IH].
  destruct (alloc o h) as [l h'] eqn:Ha. by apply alloc_inv in Ha as (_ & _ & ?).
Qed.

Lemma alter_subseteq_fresh (f : array_obj -> array_obj) (h h' : store) l :
  h ⊆ h' -> h !! l = None -> h ⊆ alter f l h'.
Proof.
  intros Hsub Hl. apply map_subseteq_spec. intros j x Hj.
  rewrite lookup_alter_ne by congruence.
  by apply (lookup_weaken h h').
Qed.

Lemma get_float_lookup (h : store) l a :
  h !! l = Some (FloatArr a) -> get_float h l = Some a.
Proof. unfold get_float. by intros ->. Qed.

(** [compute_ndvi] on references: the objects that exist before the call
    are left as they are, the result is a new object, and what it holds
    is what [compute_ndvi] gives on the contents of the arguments. *)
Lemma compute_ndvi_heap_spec (h : store) red nir r n :
  h !! red = Some (FloatArr r) -> h !! nir = Some (FloatArr n) ->
  exists res h',
    compute_ndvi_heap red nir h = Some (res, h')
    /\ h ⊆ h'
    /\ read_result h' res = Some (compute_ndvi r n)
    /\ match res with Return l => h !! l = None | Raise _ => h' = h end.
Proof.
  intros Hr Hn. unfold compute_ndvi_heap.
  rewrite (get_float_lookup h red r Hr), (get_float_lookup h nir n Hn). cbn [mbind option_bind].
  unfold compute_ndvi. case_decide as Hs.
  { eexists _, _. split; [reflexivity|]. split; [done|]. split; reflexivity. }
  destruct (alloc _ h) as [l1 h1] eqn:E1. apply alloc_inv in E1 as (F1 & L1 & S1).
  destruct (alloc _ h1) as [l2 h2] eqn:E2. apply alloc_inv in E2 as (F2 & L2 & S2).
  destruct (alloc _ h2) as [l3 h3] eqn:E3. apply alloc_inv in E3 as (F3 & L3 & S3).
  destruct (alloc _ h3) as [l4 h4] eqn:E4. apply alloc_inv in E4 as (F4 & L4 & S4).
  destruct (alloc _ h4) as [l5 h5] eqn:E5. apply alloc_inv in E5 as (F5 & L5 & S5).
  destruct (alloc _ h5) as [l6 h6] eqn:E6. apply alloc_inv in E6 as (F6 & L6 & S6).
  destruct (alloc _ h6) as [l7 h7] eqn:E7. apply alloc_inv in E7 as (F7 & L7 & S7).
  destruct (alloc _ h7) as [l8 h8] eqn:E8. apply alloc_inv in E8 as (F8 & L8 & S8).
  assert (S02 : h ⊆ h2) by (etrans; eassumption).
  assert (S38 : h3 ⊆ h8) by (repeat (etrans; [eassumption|]); done).
  assert (S08 : h ⊆ h8) by (etrans; [exact S02|]; etrans; [exact S3|exact S38]).
  assert (F03 : h !! l3 = None) by (by apply (lookup_weaken_None h h2)).
  assert (L38 : h8 !! l3 = Some (FloatArr (zeros_like (arr_zip F32.sub n r))))
    by (by apply (lookup_weaken h3 h8)).
  unfold assign_in_place, get_float at 1.
  rewrite lookup_alter_eq, L38. cbn [fmap option_fmap option_map mbind option_bind].
  destruct (alloc _ (alter _ l3 h8)) as [l9 h9] eqn:E9. apply alloc_inv in E9 as (F9 & L9 & S9).
  assert (S0a : h ⊆ alter
    (fun o => match o with
              | FloatArr a =>
                  FloatArr (masked_assign a
                    (arr_map (fun d => F32.gtb d epsilon) (arr_map F32.abs (arr_zip F32.add n r)))
                    (arr_zip F32.div
                       (masked_select (arr_zip F32.sub n r)
                          (arr_map (fun d => F32.gtb d epsilon)
                             (arr_map F32.abs (arr_zip F32.add n r))))
                       (masked_select (arr_zip F32.add n r)
                          (arr_map (fun d => F32.gtb d epsilon)
                             (arr_map F32.abs (arr_zip F32.add n r))))))
              | BoolArr a => BoolArr a
              end) l3 h8) by (by apply alter_subseteq_fresh).
  eexists _, _. split; [reflexivity|].
  split; [by etrans|]. split.
  - cbn [read_result]. by rewrite (get_float_lookup h9 l9 _ L9).
  - by apply (lookup_weaken_None h _ l9) in F9.
Qed.

Lemma calculate_statistics_heap_spec `{Reductions} (h : store) l a :
  h !! l = Some (FloatArr a) ->
  exists h',
    calculate_statistics_heap l h = Some (calculate_statistics a, h') /\ h ⊆ h'.
Proof.
  intros Hl. unfold calculate_statistics_heap.
  rewrite (get_float_lookup h l a Hl). cbn [mbind option_bind].
  destruct (calculate_statistics a); eexists; (split; [reflexivity|apply alloc_all_subseteq]).
Qed.

(** C9. Both functions are pure.  Called on references in any store,
    [compute_ndvi] and [calculate_statistics] leave every object that
    existed before the call unchanged (the arguments too, also when red
    and nir are one object), and their outcome is a function of the
    contents of the arguments alone: a second call, in the store the
    first one has left or in any other store holding the same contents,
    gives the same grid, the same dictionary or the same exception. *)
Theorem C9_pure_functions `{Reductions} (h1 h2 : store) (red1 nir1 red2 nir2 : loc)
    (r n : ndarray spec_float) :
  h1 !! red1 = Some (FloatArr r) -> h1 !! nir1 = Some (FloatArr n) ->
  h2 !! red2 = Some (FloatArr r) -> h2 !! nir2 = Some (FloatArr n) ->
  exists res1 h1' res2 h2' res3 h1'',
    compute_ndvi_heap red1 nir1 h1 = Some (res1, h1')
    /\ compute_ndvi_heap red2 nir2 h2 = Some (res2, h2')
    /\ compute_ndvi_heap red1 nir1 h1' = Some (res3, h1'')
    /\ h1 ⊆ h1' /\ h2 ⊆ h2' /\ h1' ⊆ h1''
    /\ read_result h1' res1 = Some (compute_ndvi r n)
    /\ read_result h2' res2 = Some (compute_ndvi r n)
    /\ read_result h1'' res3 = Some (compute_ndvi r n)
    /\ (exists s1 s2 s3,
          calculate_statistics_heap red1 h1 = Some (calculate_statistics r, s1)
          /\ calculate_statistics_heap red2 h2 = Some (calculate_statistics r, s2)
          /\ calculate_statistics_heap red1 s1 = Some (calculate_statistics r, s3)
          /\ h1 ⊆ s1 /\ h2 ⊆ s2 /\ s1 ⊆ s3).
Proof.
  intros Hr1 Hn1 Hr2 Hn2.
  destruct (compute_ndvi_heap_spec h1 red1 nir1 r n Hr1 Hn1) as (res1 & h1' & E1 & S1 & R1 & _).
  destruct (compute_ndvi_heap_spec h2 red2 nir2 r n Hr2 Hn2) as (res2 & h2' & E2 & S2 & R2 & _).
  destruct (compute_ndvi_heap_spec h1' red1 nir1 r n
              (lookup_weaken _ _ _ _ Hr1 S1) (lookup_weaken _ _ _ _ Hn1 S1))
    as (res3 & h1'' & E3 & S3 & R3 & _).
  exists res1, h1', res2, h2', res3, h1''.
  repeat (split; [assumption|]).
  destruct (calculate_statistics_heap_spec h1 red1 r Hr1) as (s1 & Es1 & Ss1).
  destruct (calculate_statistics_heap_spec h2 red2 r Hr2) as (s2 & Es2 & Ss2).
  destruct (calculate_statistics_heap_spec s1 red1 r (lookup_weaken _ _ _ _ Hr1 Ss1))
    as (s3 & Es3 & Ss3).
  exists s1, s2, s3. repeat (split; [assumption|]). assumption.
Qed.

Lemma C9_pure_functions_witness :
  exists res h',
    compute_ndvi_heap 1 1 {[ 1%positive := FloatArr (NdArray [1; 1]%nat [px_0_5]) ]}
      = Some (res, h')
    /\ h' !! 1%positive = Some (FloatArr (NdArray [1; 1]%nat [px_0_5])).
Proof.
  destruct (@C9_pure_functions numpy_reductions
              {[ 1%positive := FloatArr (NdArray [1; 1]%nat [px_0_5]) ]}
              {[ 1%positive := FloatArr (NdArray [1; 1]%nat [px_0_5]) ]}
              1 1 1 1 (NdArray [1; 1]%nat [px_0_5]) (NdArray [1; 1]%nat [px_0_5]))
    as (res1 & h1' & _ & _ & _ & _ & E1 & _ & _ & S1 & _).
  - apply lookup_singleton_eq.
  - apply lookup_singleton_eq.
  - apply lookup_singleton_eq.
  - apply lookup_singleton_eq.
  - exists res1, h1'. split; [exact E1|].
    eapply lookup_weaken; [apply lookup_singleton_eq|exact S1].
Defined.

(** * Further properties of the pipeline *)

(** ** [compute_ndvi] on arbitrary values *)

Lemma SFdiv_digits prec emax x y s m e :
  SFdiv prec emax x y = S754_finite s m e -> Zdigits2 (Zpos m) <= prec.
Proof.
  destruct x as [sx|sx| |sx mx ex], y as [sy|sy| |sy my ey]; try discriminate.
  intros Hq.
  destruct (SFdiv_shape prec emax (S754_finite sx mx ex) (S754_finite sy my ey)
              eq_refl eq_refl (or_introl eq_refl) (or_introl eq_refl))
    as (s' & [Hz|[Hi|(m' & e' & Hf & Hd & _)]]).
  - rewrite Hz in Hq. discriminate.
  - rewrite Hi in Hq. discriminate.
  - rewrite Hf in Hq. injection Hq as -> -> ->. exact Hd.
Qed.

Lemma clip_nan lo hi : clip lo hi S754_nan = S754_nan.
Proof. reflexivity. Qed.

Lemma ndvi_pixel_nan_or_range red nir :
  ndvi_pixel red nir = S754_nan \/ in_unit_interval (ndvi_pixel red nir).
Proof.
  unfold ndvi_pixel.
  destruct (F32.gtb (F32.abs (F32.add nir red)) epsilon).
  - destruct (SFis_nan (F32.div (F32.sub nir red) (F32.add nir red))) eqn:Hn.
    + left. destruct (F32.div _ _); try discriminate. apply clip_nan.
    + right. apply clip_range; [exact Hn|].
      intros s m e Hq. by apply (SFdiv_digits _ _ _ _ _ _ _ Hq).
  - right. apply clip_range; [reflexivity|]. intros s m e Hq. discriminate Hq.
Qed.

(** X1. Whatever the two grids of one shape hold (NaN and infinities
    included), [compute_ndvi] returns a grid in which every value is
    NaN or a number between -1 and 1: the clamp leaves no infinity in
    the output. *)
Theorem ndvi_never_infinite (red nir : ndarray spec_float) :
  shape red = shape nir ->
  exists out,
    compute_ndvi red nir = Return out
    /\ Forall (fun v => v = S754_nan \/ in_unit_interval v) (data out).
Proof.
  intros Hs. rewrite (compute_ndvi_eq red nir Hs). eexists. split; [reflexivity|].
  cbn [data].
  apply (Forall_zip_with (fun _ => True) (fun _ => True)).
  - intros n r _ _. apply ndvi_pixel_nan_or_range.
  - by apply Forall_forall.
  - by apply Forall_forall.
Qed.

Lemma ndvi_never_infinite_witness :
  exists out,
    compute_ndvi (NdArray [1; 2]%nat [S754_infinity false; px_0_1])
                 (NdArray [1; 2]%nat [px_0_5; S754_infinity true])
    = Return out
    /\ Forall (fun v => v = S754_nan \/ in_unit_interval v) (data out).
Proof. apply ndvi_never_infinite. reflexivity. Defined.

(** X2. Where one band holds an infinity and the other a finite number
    or the same infinity, the output is NaN; where the other band holds
    NaN or the opposite infinity, the output is 0.0.  So the transform
    itself makes a NaN out of an infinite reflectance. *)
Theorem ndvi_pixel_infinity (red nir : spec_float) (s : bool) :
  (red = S754_infinity s \/ nir = S754_infinity s) ->
  (SFis_nan red || SFis_nan nir = false) ->
  (red <> S754_infinity (negb s) /\ nir <> S754_infinity (negb s)
   -> ndvi_pixel red nir = S754_nan)
  /\ (red = S754_infinity (negb s) \/ nir = S754_infinity (negb s)
      -> ndvi_pixel red nir = S754_zero false).
Proof.
  intros Hinf Hnan. split.
  - intros [Hr Hn].
    destruct Hinf as [-> | ->].
    + destruct nir as [sn|sn| |sn mn en]; try discriminate Hnan.
      * destruct s; reflexivity.
      * destruct s, sn; try reflexivity; by destruct Hn.
      * destruct s, sn; reflexivity.
    + destruct red as [sr|sr| |sr mr er]; try discriminate Hnan.
      * destruct s; reflexivity.
      * destruct s, sr; try reflexivity; by destruct Hr.
      * destruct s, sr; reflexivity.
  - intros [Ho|Ho]; destruct Hinf as [Hi|Hi]; subst; try (by destruct s);
      destruct s; reflexivity.
Qed.

Lemma ndvi_pixel_infinity_witness :
  ndvi_pixel (S754_infinity false) px_0_5 = S754_nan
  /\ ndvi_pixel (S754_infinity false) (S754_infinity true) = S754_zero false.
Proof.
  split.
  - apply (proj1 (ndvi_pixel_infinity (S754_infinity false) px_0_5 false
                    (or_introl eq_refl) eq_refl)).
    split; vm_compute; discriminate.
  - apply (proj2 (ndvi_pixel_infinity (S754_infinity false) (S754_infinity true) false
                    (or_introl eq_refl) eq_refl)).
    right. reflexivity.
Defined.

(** ** [calculate_statistics]: masking, order and accuracy *)

Lemma calculate_statistics_finite_values `{Reductions} a b :
  finite_values a = finite_values b ->
  calculate_statistics a = calculate_statistics b.
Proof. unfold calculate_statistics. by intros ->. Qed.

(** X3. A pixel that is NaN or an infinity has no influence on anything
    that [calculate_statistics] returns: with the pixel or without it,
    and whatever the shapes, the result (dictionary or exception) is
    the same. *)
Theorem statistics_ignore_non_finite `{Reductions} (s s' : list nat)
    (l1 l2 : list spec_float) (v : spec_float) :
  SFis_finite v = false ->
  calculate_statistics (NdArray s (l1 ++ v :: l2))
  = calculate_statistics (NdArray s' (l1 ++ l2)).
Proof.
  intros Hv. apply calculate_statistics_finite_values.
  rewrite !finite_values_filter. cbn [data].
  rewrite !filter_app, filter_cons, decide_False by congruence. reflexivity.
Qed.

Lemma statistics_ignore_non_finite_witness :
  @calculate_statistics numpy_reductions
     (NdArray [1; 3]%nat ([px_0_1] ++ S754_infinity true :: [px_0_5]))
  = @calculate_statistics numpy_reductions (NdArray [2]%nat ([px_0_1] ++ [px_0_5])).
Proof. apply statistics_ignore_non_finite. reflexivity. Defined.

Lemma count_band_Permutation b l l' : l ≡ₚ l' -> count_band b l = count_band b l'.
Proof. intros Hp. unfold count_band. by rewrite Hp. Qed.

(** X4. The class percentages and the pixel total do not depend on the
    order of the pixels: two grids that hold the same values in any
    arrangement (a transposed or mirrored image, say) get the same four
    percentages and the same total, or both raise the same error. *)
Theorem statistics_permutation `{Reductions} (a b : ndarray spec_float) :
  data a ≡ₚ data b ->
  match calculate_statistics a, calculate_statistics b with
  | Return sa, Return sb =>
      healthy_vegetation_percent sa = healthy_vegetation_percent sb
      /\ moderate_vegetation_percent sa = moderate_vegetation_percent sb
      /\ stressed_vegetation_percent sa = stressed_vegetation_percent sb
      /\ bare_land_percent sa = bare_land_percent sb
      /\ total_valid_pixels sa = total_valid_pixels sb
  | Raise ea, Raise eb => ea = eb
  | _, _ => False
  end.
Proof.
  intros Hp.
  assert (Hf : finite_values a ≡ₚ finite_values b).
  { rewrite !finite_values_filter. by rewrite Hp. }
  assert (Hlen : length (finite_values a) = length (finite_values b)) by (by rewrite Hf).
  unfold calculate_statistics. rewrite <- Hlen.
  case_decide; [reflexivity|].
  cbn [healthy_vegetation_percent moderate_vegetation_percent
       stressed_vegetation_percent bare_land_percent total_valid_pixels].
  rewrite !count_healthy_band, !count_moderate_band, !count_stressed_band,
    !count_bare_band.
  rewrite !(count_band_Permutation _ _ _ Hf). repeat split.
Qed.

Lemma statistics_permutation_witness :
  match @calculate_statistics numpy_reductions (NdArray [1; 3]%nat [px_0_1; px_0_5; px_0_25]),
        @calculate_statistics numpy_reductions (NdArray [3; 1]%nat [px_0_5; px_0_25; px_0_1])
  with
  | Return sa, Return sb => bare_land_percent sa = bare_land_percent sb
  | _, _ => False
  end.
Proof.
  pose proof (@statistics_permutation numpy_reductions
                (NdArray [1; 3]%nat [px_0_1; px_0_5; px_0_25])
                (NdArray [3; 1]%nat [px_0_5; px_0_25; px_0_1])) as Hs.
  cbn [data] in Hs.
  assert (Hp : [px_0_1; px_0_5; px_0_25] ≡ₚ [px_0_5; px_0_25; px_0_1]).
  { change ([px_0_1] ++ [px_0_5; px_0_25] ≡ₚ [px_0_5; px_0_25] ++ [px_0_1]).
    apply Permutation_app_comm. }
  specialize (Hs Hp). revert Hs.
  destruct (@calculate_statistics numpy_reductions
              (NdArray [1; 3]%nat [px_0_1; px_0_5; px_0_25])) as [sa|ea] eqn:Ha;
    [|vm_compute in Ha; discriminate].
  destruct (@calculate_statistics numpy_reductions
              (NdArray [3; 1]%nat [px_0_5; px_0_25; px_0_1])) as [sb|eb] eqn:Hb;
    [|vm_compute in Hb; discriminate].
  intros Hs. exact (proj1 (proj2 (proj2 (proj2 Hs)))).
Defined.

(** X5. Accuracy of a reported percentage.  For a class of [c] pixels
    out of [N] (below 2^63) the reported value is the double
    [K / 100] for a whole number [K] of hundredths between 0 and 10000
    that is nearest to [10000 * c / N] (up to 10^-10); as a number it
    lies between 0 and 100 and within 0.005 (and 2 * 10^-12) of the
    exact share [100 * c / N]. *)
Theorem percent_accuracy (c N : Z) :
  0 <= c <= N -> 0 < N < 2 ^ 63 ->
  exists (K : Z) (q : Q),
    percent c N = F64.div (F64.of_int K) (F64.of_int 100)
    /\ 0 <= K <= 10000
    /\ (inject_Z K - (1 # 2) - (1 # 10000000000)
        <= 10000 * (inject_Z c / inject_Z N)
        <= inject_Z K + (1 # 2) + (1 # 10000000000))%Q
    /\ SF2Q (percent c N) = Some q
    /\ (0 <= q <= 100)%Q
    /\ (100 * (inject_Z c / inject_Z N) - (1 # 200) - (2 # 1000000000000) <= q
        <= 100 * (inject_Z c / inject_Z N) + (1 # 200) + (2 # 1000000000000))%Q.
Proof.
  intros Hc HN.
  destruct (percent_error c N Hc HN) as (K & q & Hq & Hex & HK & Ht & He & Hr).
  exists K, q. repeat (split; [assumption|]).
  unfold Qdiv in He. change (/ 100)%Q with (1 # 100)%Q in He.
  split; lra.
Qed.

Lemma percent_accuracy_witness :
  exists q, SF2Q (percent 1 32) = Some q /\ (0 <= q <= 100)%Q.
Proof.
  destruct (percent_accuracy 1 32) as (K & q & _ & _ & _ & Hq & Hr & _).
  - lia.
  - split; [lia|]. vm_compute. reflexivity.
  - exists q. split; [exact Hq|exact Hr].
Defined.

(** ** The transform followed by the classifier *)

Lemma in_unit_interval_finite v : in_unit_interval v -> SFis_finite v = true.
Proof. intros (q & Hq & _). by destruct v. Qed.

Lemma finite_values_all a :
  Forall (fun v => SFis_finite v = true) (data a) -> finite_values a = data a.
Proof.
  rewrite finite_values_filter. induction 1 as [|v l Hv _ IH]; [done|].
  rewrite filter_cons, decide_True by done. by rewrite IH.
Qed.

(** X6. [compute_ndvi] keeps the shape and the size of well-formed
    grids: the result has the shape of the inputs and one value for
    each pixel position, nothing is broadcast, truncated or dropped. *)
Theorem compute_ndvi_well_formed (red nir : ndarray spec_float) :
  well_formed red -> well_formed nir -> shape red = shape nir ->
  exists out,
    compute_ndvi red nir = Return out
    /\ shape out = shape red
    /\ well_formed out
    /\ length (data out) = length (data red)
    /\ forall i r n, data red !! i = Some r -> data nir !! i = Some n ->
                     data out !! i = Some (ndvi_pixel r n).
Proof.
  unfold well_formed. intros Hr Hn Hs.
  rewrite (compute_ndvi_eq red nir Hs). eexists. split; [reflexivity|].
  cbn [shape data]. rewrite length_zip_with.
  split; [done|]. split; [rewrite Hn, <- Hs, Hr; lia|].
  split; [rewrite Hn, <- Hs, Hr; lia|].
  intros i r n Hir Hin. rewrite lookup_zip_with, Hin. cbn. by rewrite Hir.
Qed.

Lemma compute_ndvi_well_formed_witness :
  exists out,
    compute_ndvi (NdArray [1; 2]%nat [px_0_1; px_0_5]) (NdArray [1; 2]%nat [px_0_5; px_0_1])
    = Return out
    /\ shape out = [1; 2]%nat /\ length (data out) = 2%nat.
Proof.
  destruct (compute_ndvi_well_formed (NdArray [1; 2]%nat [px_0_1; px_0_5])
              (NdArray [1; 2]%nat [px_0_5; px_0_1]) eq_refl eq_refl eq_refl)
    as (out & Ho & Hs & _ & Hl & _).
  exists out. split; [exact Ho|]. split; [exact Hs|exact Hl].
Defined.

Lemma compute_ndvi_finite_grid (red nir : ndarray spec_float) :
  well_formed red -> well_formed nir -> shape red = shape nir ->
  Forall F32.finite (data red) -> Forall F32.finite (data nir) ->
  exists out,
    compute_ndvi red nir = Return out
    /\ finite_values out = data out
    /\ length (data out) = size_of_shape (shape red).
Proof.
  unfold well_formed. intros Hwr Hwn Hs Hfr Hfn.
  rewrite (compute_ndvi_eq red nir Hs). eexists. split; [reflexivity|]. split.
  - apply finite_values_all. cbn [data].
    apply (Forall_zip_with F32.finite F32.finite); [|done|done].
    intros n r Hn Hr. apply in_unit_interval_finite. by apply ndvi_pixel_range.
  - cbn [data]. rewrite length_zip_with, Hwn, <- Hs, Hwr. lia.
Qed.

(** X7. The whole numerical pipeline on finite data.  For two
    well-formed grids of one shape with at least one pixel and finite
    float32 values only, [compute_ndvi] returns a grid on which
    [calculate_statistics] does not raise, and no pixel is masked out:
    [total_valid_pixels] is the number of pixels of the grids. *)
Theorem pipeline_finite `{Reductions} (red nir : ndarray spec_float) :
  well_formed red -> well_formed nir -> shape red = shape nir ->
  (0 < size_of_shape (shape red))%nat ->
  Forall F32.finite (data red) -> Forall F32.finite (data nir) ->
  exists out st,
    compute_ndvi red nir = Return out
    /\ calculate_statistics out = Return st
    /\ total_valid_pixels st = Z.of_nat (size_of_shape (shape red))
    /\ finite_values out = data out.
Proof.
  intros Hwr Hwn Hs Hpos Hfr Hfn.
  destruct (compute_ndvi_finite_grid red nir Hwr Hwn Hs Hfr Hfn) as (out & Ho & Hfv & Hlen).
  exists out. unfold calculate_statistics. rewrite Hfv, Hlen.
  rewrite decide_False by lia.
  eexists. split; [exact Ho|]. split; [reflexivity|]. split; reflexivity.
Qed.

Lemma pipeline_finite_witness :
  exists out st,
    compute_ndvi (NdArray [1; 2]%nat [px_0_1; px_0_5]) (NdArray [1; 2]%nat [px_0_5; px_0_1])
    = Return out
    /\ @calculate_statistics numpy_reductions out = Return st
    /\ total_valid_pixels st = 2.
Proof.
  destruct (@pipeline_finite numpy_reductions (NdArray [1; 2]%nat [px_0_1; px_0_5])
              (NdArray [1; 2]%nat [px_0_5; px_0_1]) eq_refl eq_refl eq_refl)
    as (out & st & Ho & Hst & Ht & _).
  - cbn. lia.
  - repeat constructor; first [apply px_0_1_finite | apply px_0_5_finite].
  - repeat constructor; first [apply px_0_1_finite | apply px_0_5_finite].
  - exists out, st. split; [exact Ho|]. split; [exact Hst|exact Ht].
Defined.

(** ** [read_band] and the JSON endpoint *)

(** An integer of fewer than 25 bits converts to float32 exactly. *)
Lemma astype_int_exact z :
  Z.abs z < 2 ^ 24 ->
  F32.finite (binary_normalize F32.prec F32.emax z 0 false)
  /\ (SFval (binary_normalize F32.prec F32.emax z 0 false) == inject_Z z)%Q.
Proof.
  intros Hz.
  assert (Hvalid := binary_normalize_valid F32.prec F32.emax F32_prec_gt_0 z 0 false).
  destruct z as [|p|p]; [split; [split|]; reflexivity| |].
  all: cbn [binary_normalize] in *.
  all: assert (Hd : 0 < Zdigits2 (Zpos p) <= 24)
         by (split; [apply Zdigits2_pos; lia|apply Zdigits2_le_iff; lia]).
  all: match goal with |- context [binary_round _ _ ?s ?p' 0] =>
         destruct (binary_round_spec F32.prec F32.emax F32_prec_gt_0 s p' 0)
           as (m2 & Hhi & _ & Hres) end.
  all: cbv zeta in Hhi.
  all: assert (He1 : SpecFloat.fexp F32.prec F32.emax (Zdigits2 (Zpos p) + 0)
                     = Zdigits2 (Zpos p) - 24)
         by (unfold SpecFloat.fexp, SpecFloat.emin, F32.prec, F32.emax; lia).
  all: rewrite He1 in Hhi, Hres; specialize (Hhi ltac:(lia)).
  all: assert (Hp2 : 0 < 2 ^ (0 - (Zdigits2 (Zpos p) - 24))) by (apply Z.pow_pos_nonneg; lia).
  all: assert (Hm2 : 0 < m2) by (rewrite Hhi; lia).
  all: assert (Hd2 : Zdigits2 m2 = 24)
         by (rewrite Hhi, Zdigits2_mul_pow2 by lia; lia).
  all: destruct Hres as [[H0 _]|(m3 & e3 & Hv & _ & He3 & _ & Hr)]; [lia|].
  all: rewrite Hd2 in He3.
  all: assert (He3' : e3 = Zdigits2 (Zpos p) - 24)
         by (rewrite He3; unfold SpecFloat.fexp, SpecFloat.emin, F32.prec, F32.emax; lia).
  all: rewrite He3' in Hv, Hr.
  all: replace (Zdigits2 (Zpos p) - 24 - (Zdigits2 (Zpos p) - 24)) with 0 in Hv by lia.
  all: rewrite Z.pow_0_r, Z.mul_1_r in Hv.
  all: assert (Hle : (Zdigits2 (Zpos p) - 24 <=? F32.emax - F32.prec) = true)
         by (apply Z.leb_le; unfold F32.emax, F32.prec; lia).
  all: rewrite Hle in Hr; rewrite Hr in Hvalid |- *.
  all: split; [split; [reflexivity|exact Hvalid]|].
  all: cbn [SFval cond_Zopp]; rewrite Hv, Hhi.
  - rewrite F2Q_shift by lia.
    replace (Zdigits2 (Zpos p) - 24 + (0 - (Zdigits2 (Zpos p) - 24))) with 0 by lia.
    apply F2Q_0.
  - replace (- (Zpos p * 2 ^ (0 - (Zdigits2 (Zpos p) - 24))))
      with (Zneg p * 2 ^ (0 - (Zdigits2 (Zpos p) - 24))) by lia.
    rewrite F2Q_shift by lia.
    replace (Zdigits2 (Zpos p) - 24 + (0 - (Zdigits2 (Zpos p) - 24))) with 0 by lia.
    apply F2Q_0.
Qed.

Lemma astype_int_band a :
  Forall (fun z => Z.abs z < 2 ^ 24) (data a) ->
  Forall F32.finite (data (astype_float32 (IntBand a)))
  /\ Forall2 (fun z x => (SFval x == inject_Z z)%Q) (data a) (data (astype_float32 (IntBand a))).
Proof.
  cbn [astype_float32 arr_map data]. induction 1 as [|z l Hz _ [IH1 IH2]]; [by split|].
  destruct (astype_int_exact z Hz) as [Hf Hv].
  cbn [fmap list_fmap]. split; by constructor.
Qed.

(** X8. [read_band] on an integer raster whose values have fewer than
    25 bits (every uint16 Sentinel-2 band): the float32 grid that it
    returns has the shape of the raster, and its values are finite and
    exactly the integers of the raster; the conversion rounds
    nothing. *)
Theorem read_band_integer_exact (a : ndarray Z) (filename : string) :
  Forall (fun z => Z.abs z < 2 ^ 24) (data a) ->
  exists band,
    read_band (Decoded (IntBand a)) filename = Return band
    /\ shape band = shape a
    /\ length (data band) = length (data a)
    /\ Forall F32.finite (data band)
    /\ Forall2 (fun z x => (SFval x == inject_Z z)%Q) (data a) (data band).
Proof.
  intros Ha. destruct (astype_int_band a Ha) as [Hf Hv].
  eexists. split; [reflexivity|]. split; [reflexivity|].
  split; [cbn [astype_float32 arr_map data]; apply length_fmap|]. split; assumption.
Qed.

Lemma read_band_integer_exact_witness :
  exists band,
    read_band (Decoded (IntBand (NdArray [1; 2]%nat [0; 65535]))) "B04.jp2" = Return band
    /\ Forall F32.finite (data band).
Proof.
  destruct (read_band_integer_exact (NdArray [1; 2]%nat [0; 65535]) "B04.jp2")
    as (band & Hb & _ & _ & Hf & _).
  - cbn [data]. repeat constructor; vm_compute; reflexivity.
  - exists band. split; [exact Hb|exact Hf].
Defined.

Lemma astype_well_formed a : well_formed a -> well_formed (astype_float32 (IntBand a)).
Proof. unfold well_formed. cbn [astype_float32 arr_map data shape]. by rewrite length_fmap. Qed.

(** X9. The JSON endpoint on integer rasters.  For two well-formed
    integer rasters of one shape with at least one pixel and values of
    fewer than 25 bits, the endpoint answers with the statistics, never
    with an error, and [total_valid_pixels] is the number of pixels:
    on such data neither the shape check nor the no-valid-pixels check
    can fail. *)
Theorem endpoint_integer_rasters `{Reductions} (red nir : ndarray Z)
    (red_name nir_name : string) :
  well_formed red -> well_formed nir -> shape red = shape nir ->
  (0 < size_of_shape (shape red))%nat ->
  Forall (fun z => Z.abs z < 2 ^ 24) (data red) ->
  Forall (fun z => Z.abs z < 2 ^ 24) (data nir) ->
  exists st,
    compute_ndvi_json_endpoint (Decoded (IntBand red)) (Decoded (IntBand nir))
      red_name nir_name = Success st
    /\ total_valid_pixels st = Z.of_nat (size_of_shape (shape red)).
Proof.
  intros Hwr Hwn Hs Hpos Hr Hn.
  destruct (astype_int_band red Hr) as [Hfr _].
  destruct (astype_int_band nir Hn) as [Hfn _].
  destruct (compute_ndvi_finite_grid (astype_float32 (IntBand red))
              (astype_float32 (IntBand nir)) (astype_well_formed red Hwr)
              (astype_well_formed nir Hwn) Hs Hfr Hfn) as (out & Ho & Hfv & Hlen).
  cbn [shape astype_float32 arr_map] in Hlen.
  unfold compute_ndvi_json_endpoint. cbn [read_band mbind result_bind].
  rewrite Ho. cbn [mbind result_bind].
  unfold calculate_statistics. rewrite Hfv, Hlen.
  rewrite decide_False by lia.
  eexists. split; reflexivity.
Qed.

Lemma endpoint_integer_rasters_witness :
  exists st,
    @compute_ndvi_json_endpoint numpy_reductions
      (Decoded (IntBand (NdArray [1; 2]%nat [1200; 0])))
      (Decoded (IntBand (NdArray [1; 2]%nat [3400; 0]))) "B04.jp2" "B08.jp2" = Success st
    /\ total_valid_pixels st = 2.
Proof.
  destruct (@endpoint_integer_rasters numpy_reductions (NdArray [1; 2]%nat [1200; 0])
              (NdArray [1; 2]%nat [3400; 0]) "B04.jp2" "B08.jp2" eq_refl eq_refl eq_refl)
    as (st & Hst & Ht).
  - cbn. lia.
  - cbn [data]. repeat constructor; vm_compute; reflexivity.
  - cbn [data]. repeat constructor; vm_compute; reflexivity.
  - exists st. split; [exact Hst|exact Ht].
Defined.

